(** * GeoEstate map client (static/js/main.js): model and verified properties

    A shallow embedding of the browser-side controller of [static/js/main.js].
    The module-level variables of the script ([propertyMarkers],
    [currentRouteLayer], [userLocationMarker]), the Leaflet map and the page
    elements the script writes to are the fields of one record, [World];
    every function of the script is a function on [World] with the name it
    has in the source.  Asynchronous calls ([fetch], [getCurrentPosition])
    put a request in [pending]; the event loop later delivers a reply to one
    of the pending requests and runs the handler the source registered with
    [then]/[catch].

    Host functions are modelled as the ECMAScript and Leaflet documentation
    describe them, on the inputs the script gives them:
    - numbers are exact rationals ([Qc]) with [NaN] and the two infinities;
      [parseInt] and [parseFloat] read decimal (and, for [parseInt],
      hexadecimal) text, and a value too small or too large for a double
      becomes [0] or an infinity; the rounding of the remaining values to the
      nearest double is not modelled;
    - [toLocaleString] is the grouping of the [en-US] locale on integers;
    - a Leaflet layer is identified by its stamp, the index of the object in
      [heap]; the map holds the stamps of its overlays (markers and lines);
      tile layers and the layer control of [initMap] are left out, and the
      one open popup is a field of its own.

    The events are those [initUI] and the popups listen to.  The handlers
    that only toggle the search panel, the sidebar and the estimate dialog
    touch nothing the other functions read and are left out.  A reply that
    cannot be parsed, or that makes a handler throw, is a [rejected] reply:
    it runs the [catch] handler. *)

From stdpp Require Import base list strings numbers pretty.
From Stdlib Require Import Ascii QArith Qround Qcanon Lqa.

Open Scope Z_scope.

(** ** Numbers *)

Inductive number :=
| NaN
| Infinity (negative : bool)
| Fin (q : Qc).

Definition isNaN (n : number) : bool :=
  match n with NaN => true | _ => false end.

(** [n <= 0] of the source: a comparison with [NaN] is false. *)
Definition le_zero (n : number) : bool :=
  match n with
  | NaN => false
  | Infinity negative => negative
  | Fin q => bool_decide (q ≤ 0)%Qc
  end.

Definition Qc_of_Z (z : Z) : Qc := Q2Qc (inject_Z z).

(** The value [m * 10^e]. *)
Definition scale10 (m : Z) (e : Z) : Qc :=
  if bool_decide (0 ≤ e) then Qc_of_Z (m * 10 ^ e)
  else Q2Qc (Qmake m (Z.to_pos (10 ^ (- e)))).

(** Values of magnitude at most [2^-1075] round to zero, values of magnitude
    at least [2^1024 - 2^970] round to an infinity. *)
Definition double_min_half : Qc := Q2Qc (Qmake 1 (Z.to_pos (2 ^ 1075))).
Definition double_overflow : Qc := Qc_of_Z (2 ^ 1024 - 2 ^ 970).

Definition Qc_abs (q : Qc) : Qc := if bool_decide (q < 0)%Qc then (- q)%Qc else q.

Definition to_double (q : Qc) : number :=
  if bool_decide (Qc_abs q ≤ double_min_half)%Qc then Fin 0%Qc
  else if bool_decide (double_overflow ≤ Qc_abs q)%Qc then Infinity (bool_decide (q < 0)%Qc)
  else Fin q.

(** [Math.round]: the nearest integer, a tie going up. *)
Definition Math_round (x : Qc) : Z := Qfloor (x + Q2Qc (1 # 2))%Qc.

(** [Math.floor(n / 2)] for an array length. *)
Definition Math_floor_half (n : nat) : nat := n `div` 2.

(** ** Reading numbers from text *)

Definition StrWhiteSpaceChar (c : ascii) : bool :=
  let n := nat_of_ascii c in
  bool_decide (n = 32%nat) || (bool_decide (9 ≤ n)%nat && bool_decide (n ≤ 13)%nat).

Fixpoint trimStart (cs : list ascii) : list ascii :=
  match cs with
  | c :: cs' => if StrWhiteSpaceChar c then trimStart cs' else cs
  | [] => []
  end.

Definition digit_value (radix : nat) (c : ascii) : option nat :=
  let n := nat_of_ascii c in
  let v :=
    if bool_decide (48 ≤ n)%nat && bool_decide (n ≤ 57)%nat then Some (n - 48)%nat
    else if bool_decide (97 ≤ n)%nat && bool_decide (n ≤ 122)%nat then Some (n - 87)%nat
    else if bool_decide (65 ≤ n)%nat && bool_decide (n ≤ 90)%nat then Some (n - 55)%nat
    else None in
  match v with
  | Some d => if bool_decide (d < radix)%nat then Some d else None
  | None => None
  end.

(** The longest prefix of digits of the radix, as their values, and the rest. *)
Fixpoint span_digits (radix : nat) (cs : list ascii) : list nat * list ascii :=
  match cs with
  | c :: cs' =>
      match digit_value radix c with
      | Some d => let '(ds, rest) := span_digits radix cs' in (d :: ds, rest)
      | None => ([], cs)
      end
  | [] => ([], [])
  end.

Definition digits_value (radix : nat) (ds : list nat) : Z :=
  foldl (λ acc d, acc * Z.of_nat radix + Z.of_nat d) 0 ds.

Definition read_sign (cs : list ascii) : bool * list ascii :=
  match cs with
  | "-"%char :: rest => (true, rest)
  | "+"%char :: rest => (false, rest)
  | _ => (false, cs)
  end.

Definition apply_sign (negative : bool) (z : Z) : Z := if negative then - z else z.

(** [parseInt(string)] with no radix argument. *)
Definition parseInt (s : string) : number :=
  let '(negative, cs) := read_sign (trimStart (String.list_ascii_of_string s)) in
  let '(radix, cs) :=
    match cs with
    | "0"%char :: "x"%char :: rest => (16%nat, rest)
    | "0"%char :: "X"%char :: rest => (16%nat, rest)
    | _ => (10%nat, cs)
    end in
  match span_digits radix cs with
  | ([], _) => NaN
  | (ds, _) => to_double (Qc_of_Z (apply_sign negative (digits_value radix ds)))
  end.

(** The exponent part [e[+-]digits] of a decimal literal, when present. *)
Definition read_exponent (cs : list ascii) : Z :=
  match cs with
  | c :: rest =>
      if bool_decide (c = "e"%char) || bool_decide (c = "E"%char) then
        let '(negative, rest') := read_sign rest in
        match span_digits 10 rest' with
        | ([], _) => 0
        | (ds, _) => apply_sign negative (digits_value 10 ds)
        end
      else 0
  | [] => 0
  end.

Definition starts_with (p cs : list ascii) : bool :=
  bool_decide (take (length p) cs = p).

(** [parseFloat(string)]: the longest prefix that is a decimal literal. *)
Definition parseFloat (s : string) : number :=
  let '(negative, cs) := read_sign (trimStart (String.list_ascii_of_string s)) in
  if starts_with (String.list_ascii_of_string "Infinity") cs then Infinity negative
  else
    let '(int_part, rest) := span_digits 10 cs in
    let '(frac_part, rest) :=
      match rest with
      | "."%char :: rest' => span_digits 10 rest'
      | _ => ([], rest)
      end in
    match int_part ++ frac_part with
    | [] => NaN
    | ds =>
        to_double (scale10 (apply_sign negative (digits_value 10 ds))
                           (read_exponent rest - Z.of_nat (length frac_part)))
    end.

(** [Number.prototype.toLocaleString()] on an integer, [en-US] locale: the
    decimal digits in groups of three, counted from the right. *)
Fixpoint group3 (ds : list ascii) : list ascii :=
  match ds with
  | [] => []
  | d :: rest =>
      d :: (if bool_decide (rest ≠ []) && bool_decide (length rest `mod` 3 = 0)%nat
            then ","%char :: group3 rest
            else group3 rest)
  end.

Definition toLocaleString (z : Z) : string :=
  (if bool_decide (z < 0) then "-" else "")
  +:+ String.string_of_list_ascii (group3 (String.list_ascii_of_string (pretty (Z.abs z)))).

Arguments toLocaleString : simpl never.

(** ** JSON documents, as [JSON.stringify] writes them *)

#[warnings="-register-all"]
Inductive json :=
| JNull
| JBool (b : bool)
| JNumber (q : Qc)
| JString (s : string)
| JArray (items : list json)
| JObject (members : list (string * json)).

(** A number that is not finite is written [null]. *)
Definition json_of_number (n : number) : json :=
  match n with
  | Fin q => JNumber q
  | NaN | Infinity _ => JNull
  end.

(** ** Data received from the backend *)

Definition LatLng : Type := Qc * Qc.

Module Property.
Record t := {
    lat : Qc;
    lng : Qc;
    price : Z;
    bedrooms : Z;
    bathrooms : Z;
    area : Qc;
    address : string;
    image : string;
    type : string
  }.
End Property.

Module Geocode.
Record t := {
    success : bool;
    lat : Qc;
    lng : Qc;
    formatted_address : string;
    error : option string
  }.
End Geocode.

Module Route.
Record t := {
    success : bool;
    start : LatLng;
    waypoints : list LatLng;
    end_ : LatLng;
    distance : Qc;
    duration : Qc
  }.
End Route.

(** ** Leaflet objects *)

Record DivIcon := {
  className : string;
  html : string;
  iconSize : Z * Z;
  iconAnchor : option (Z * Z)
}.

(** What a popup shows.  The property popup is the HTML template of
    [addPropertyToMap], given by the values put in its holes; the route
    message is the template
    [Distance: ${distance} km, Duration: ${minutes} minutes]. *)
Inductive Content :=
| property_popup (image price : string) (bedrooms bathrooms : Z) (area : Qc)
                 (address : string) (data_lat data_lng : Qc)
| text_content (s : string)
| route_message (distance : Qc) (minutes : Z).

Inductive Layer :=
| L_marker (latlng : LatLng) (icon : option DivIcon) (popup : option Content)
| L_polyline (points : list LatLng) (color : string) (weight : Z) (opacity : Qc).

Definition is_polyline (l : Layer) : bool :=
  match l with L_polyline _ _ _ _ => true | L_marker _ _ _ => false end.

Inductive View :=
| setView (center : LatLng) (zoom : Z)
| fitBounds (points : list LatLng) (padding : Z * Z).

(** ** The page *)

(** A card of the sidebar list: the values shown, and the coordinates its
    click handler keeps. *)
Record Card := {
  card_price : string;
  card_bedrooms : Z;
  card_bathrooms : Z;
  card_address : string;
  card_type : string;
  card_latlng : LatLng
}.

(** The controls the script reads, named by their element ids. *)
Record Inputs := {
  locationSearch : string;
  location : string;
  residential : bool;
  commercial : bool;
  industrial : bool;
  for_sale : bool;
  for_rent : bool;
  min_price : string;
  max_price : string;
  bedrooms : string;
  bathrooms : string;
  schools : bool;
  hospitals : bool;
  transport : bool;
  shopping : bool;
  est_property_type : string;
  est_location : string;
  est_bedrooms : string;
  est_bathrooms : string;
  est_area : string;
  est_age : string;
  est_condition : string;
  est_garage : bool;
  est_pool : bool;
  est_garden : bool;
  est_security : bool;
  est_aircon : bool;
  est_furnished : bool
}.

(** ** Asynchronous requests *)

Inductive Request :=
| GET_properties
| POST_search (body : json) (location : string)
| GET_geocode (location : string)
| GET_route (start_lat start_lng end_lat end_lng : Qc)
| POST_estimate_price (body : json)
| getCurrentPosition (callback : option LatLng).

Definition is_route_request (r : Request) : bool :=
  match r with GET_route _ _ _ _ => true | _ => false end.

Definition is_fetch (r : Request) : bool :=
  match r with getCurrentPosition _ => false | _ => true end.

(** What the script makes visible outside its own variables, in order. *)
Inductive Effect :=
| alert (message : string)
| console_error (message error : string)
| issued (r : Request)
| map_addLayer (stamp : nat)
| map_removeLayer (stamp : nat).

Record World := {
  heap : list Layer;
  map_layers : list nat;
  map_view : View;
  map_popup : option (LatLng * Content);
  propertyMarkers : list nat;
  currentRouteLayer : option nat;
  userLocationMarker : option nat;
  propertyList : list Card;
  resultCount : string;
  estimated_price_value : string;
  estimation_result_display : string;
  inputs : Inputs;
  navigator_geolocation : bool;
  pending : list Request;
  trace : list Effect
}.

Definition set_heap (x : list Layer) (w : World) : World :=
  {| heap := x; map_layers := map_layers w; map_view := map_view w;
     map_popup := map_popup w; propertyMarkers := propertyMarkers w;
     currentRouteLayer := currentRouteLayer w;
     userLocationMarker := userLocationMarker w;
     propertyList := propertyList w; resultCount := resultCount w;
     estimated_price_value := estimated_price_value w;
     estimation_result_display := estimation_result_display w;
     inputs := inputs w; navigator_geolocation := navigator_geolocation w;
     pending := pending w; trace := trace w |}.

Definition set_map_layers (x : list nat) (w : World) : World :=
  {| heap := heap w; map_layers := x; map_view := map_view w;
     map_popup := map_popup w; propertyMarkers := propertyMarkers w;
     currentRouteLayer := currentRouteLayer w;
     userLocationMarker := userLocationMarker w;
     propertyList := propertyList w; resultCount := resultCount w;
     estimated_price_value := estimated_price_value w;
     estimation_result_display := estimation_result_display w;
     inputs := inputs w; navigator_geolocation := navigator_geolocation w;
     pending := pending w; trace := trace w |}.

Definition set_map_view (x : View) (w : World) : World :=
  {| heap := heap w; map_layers := map_layers w; map_view := x;
     map_popup := map_popup w; propertyMarkers := propertyMarkers w;
     currentRouteLayer := currentRouteLayer w;
     userLocationMarker := userLocationMarker w;
     propertyList := propertyList w; resultCount := resultCount w;
     estimated_price_value := estimated_price_value w;
     estimation_result_display := estimation_result_display w;
     inputs := inputs w; navigator_geolocation := navigator_geolocation w;
     pending := pending w; trace := trace w |}.

Definition set_map_popup (x : option (LatLng * Content)) (w : World) : World :=
  {| heap := heap w; map_layers := map_layers w; map_view := map_view w;
     map_popup := x; propertyMarkers := propertyMarkers w;
     currentRouteLayer := currentRouteLayer w;
     userLocationMarker := userLocationMarker w;
     propertyList := propertyList w; resultCount := resultCount w;
     estimated_price_value := estimated_price_value w;
     estimation_result_display := estimation_result_display w;
     inputs := inputs w; navigator_geolocation := navigator_geolocation w;
     pending := pending w; trace := trace w |}.

Definition set_propertyMarkers (x : list nat) (w : World) : World :=
  {| heap := heap w; map_layers := map_layers w; map_view := map_view w;
     map_popup := map_popup w; propertyMarkers := x;
     currentRouteLayer := currentRouteLayer w;
     userLocationMarker := userLocationMarker w;
     propertyList := propertyList w; resultCount := resultCount w;
     estimated_price_value := estimated_price_value w;
     estimation_result_display := estimation_result_display w;
     inputs := inputs w; navigator_geolocation := navigator_geolocation w;
     pending := pending w; trace := trace w |}.

Definition set_currentRouteLayer (x : option nat) (w : World) : World :=
  {| heap := heap w; map_layers := map_layers w; map_view := map_view w;
     map_popup := map_popup w; propertyMarkers := propertyMarkers w;
     currentRouteLayer := x;
     userLocationMarker := userLocationMarker w;
     propertyList := propertyList w; resultCount := resultCount w;
     estimated_price_value := estimated_price_value w;
     estimation_result_display := estimation_result_display w;
     inputs := inputs w; navigator_geolocation := navigator_geolocation w;
     pending := pending w; trace := trace w |}.

Definition set_userLocationMarker (x : option nat) (w : World) : World :=
  {| heap := heap w; map_layers := map_layers w; map_view := map_view w;
     map_popup := map_popup w; propertyMarkers := propertyMarkers w;
     currentRouteLayer := currentRouteLayer w;
     userLocationMarker := x;
     propertyList := propertyList w; resultCount := resultCount w;
     estimated_price_value := estimated_price_value w;
     estimation_result_display := estimation_result_display w;
     inputs := inputs w; navigator_geolocation := navigator_geolocation w;
     pending := pending w; trace := trace w |}.

Definition set_propertyList (x : list Card) (w : World) : World :=
  {| heap := heap w; map_layers := map_layers w; map_view := map_view w;
     map_popup := map_popup w; propertyMarkers := propertyMarkers w;
     currentRouteLayer := currentRouteLayer w;
     userLocationMarker := userLocationMarker w;
     propertyList := x; resultCount := resultCount w;
     estimated_price_value := estimated_price_value w;
     estimation_result_display := estimation_result_display w;
     inputs := inputs w; navigator_geolocation := navigator_geolocation w;
     pending := pending w; trace := trace w |}.

Definition set_resultCount (x : string) (w : World) : World :=
  {| heap := heap w; map_layers := map_layers w; map_view := map_view w;
     map_popup := map_popup w; propertyMarkers := propertyMarkers w;
     currentRouteLayer := currentRouteLayer w;
     userLocationMarker := userLocationMarker w;
     propertyList := propertyList w; resultCount := x;
     estimated_price_value := estimated_price_value w;
     estimation_result_display := estimation_result_display w;
     inputs := inputs w; navigator_geolocation := navigator_geolocation w;
     pending := pending w; trace := trace w |}.

Definition set_estimation (value display : string) (w : World) : World :=
  {| heap := heap w; map_layers := map_layers w; map_view := map_view w;
     map_popup := map_popup w; propertyMarkers := propertyMarkers w;
     currentRouteLayer := currentRouteLayer w;
     userLocationMarker := userLocationMarker w;
     propertyList := propertyList w; resultCount := resultCount w;
     estimated_price_value := value;
     estimation_result_display := display;
     inputs := inputs w; navigator_geolocation := navigator_geolocation w;
     pending := pending w; trace := trace w |}.

Definition set_inputs (x : Inputs) (w : World) : World :=
  {| heap := heap w; map_layers := map_layers w; map_view := map_view w;
     map_popup := map_popup w; propertyMarkers := propertyMarkers w;
     currentRouteLayer := currentRouteLayer w;
     userLocationMarker := userLocationMarker w;
     propertyList := propertyList w; resultCount := resultCount w;
     estimated_price_value := estimated_price_value w;
     estimation_result_display := estimation_result_display w;
     inputs := x; navigator_geolocation := navigator_geolocation w;
     pending := pending w; trace := trace w |}.

Definition set_pending (x : list Request) (w : World) : World :=
  {| heap := heap w; map_layers := map_layers w; map_view := map_view w;
     map_popup := map_popup w; propertyMarkers := propertyMarkers w;
     currentRouteLayer := currentRouteLayer w;
     userLocationMarker := userLocationMarker w;
     propertyList := propertyList w; resultCount := resultCount w;
     estimated_price_value := estimated_price_value w;
     estimation_result_display := estimation_result_display w;
     inputs := inputs w; navigator_geolocation := navigator_geolocation w;
     pending := x; trace := trace w |}.

Definition set_trace (x : list Effect) (w : World) : World :=
  {| heap := heap w; map_layers := map_layers w; map_view := map_view w;
     map_popup := map_popup w; propertyMarkers := propertyMarkers w;
     currentRouteLayer := currentRouteLayer w;
     userLocationMarker := userLocationMarker w;
     propertyList := propertyList w; resultCount := resultCount w;
     estimated_price_value := estimated_price_value w;
     estimation_result_display := estimation_result_display w;
     inputs := inputs w; navigator_geolocation := navigator_geolocation w;
     pending := pending w; trace := x |}.

(** ** Objects the script sends *)

Module SearchCriteria.
Record t := {
    location : string;
    property_types : list string;
    deal_types : list string;
    min_price : string;
    max_price : string;
    bedrooms : string;
    bathrooms : string;
    proximities : list string
  }.
End SearchCriteria.

Module EstimateData.
Record t := {
    property_type : string;
    location : string;
    bedrooms : number;
    bathrooms : number;
    area : number;
    age : number;
    condition : string;
    garage : bool;
    pool : bool;
    garden : bool;
    security : bool;
    aircon : bool;
    furnished : bool
  }.
End EstimateData.

Definition JSON_stringify_searchCriteria (c : SearchCriteria.t) : json :=
  JObject [
    ("location", JString (SearchCriteria.location c));
    ("property_types", JArray (JString <$> SearchCriteria.property_types c));
    ("deal_types", JArray (JString <$> SearchCriteria.deal_types c));
    ("min_price", JString (SearchCriteria.min_price c));
    ("max_price", JString (SearchCriteria.max_price c));
    ("bedrooms", JString (SearchCriteria.bedrooms c));
    ("bathrooms", JString (SearchCriteria.bathrooms c));
    ("proximities", JArray (JString <$> SearchCriteria.proximities c))
  ].

Definition JSON_stringify_estimateData (d : EstimateData.t) : json :=
  JObject [
    ("property_type", JString (EstimateData.property_type d));
    ("location", JString (EstimateData.location d));
    ("bedrooms", json_of_number (EstimateData.bedrooms d));
    ("bathrooms", json_of_number (EstimateData.bathrooms d));
    ("area", json_of_number (EstimateData.area d));
    ("age", json_of_number (EstimateData.age d));
    ("condition", JString (EstimateData.condition d));
    ("garage", JBool (EstimateData.garage d));
    ("pool", JBool (EstimateData.pool d));
    ("garden", JBool (EstimateData.garden d));
    ("security", JBool (EstimateData.security d));
    ("aircon", JBool (EstimateData.aircon d));
    ("furnished", JBool (EstimateData.furnished d))
  ].

(** The member of a JSON object with the given name. *)
Definition member (name : string) (j : json) : option json :=
  match j with
  | JObject members => snd <$> List.find (λ m, bool_decide (fst m = name)) members
  | _ => None
  end.

(** ** Host operations *)

Definition log (e : Effect) (w : World) : World := set_trace (trace w ++ [e]) w.

(** [fetch], and [navigator.geolocation.getCurrentPosition]: the request
    waits in [pending] for its reply. *)
Definition request (r : Request) (w : World) : World :=
  set_pending (pending w ++ [r]) (log (issued r) w).

(** A new Leaflet object and its stamp. *)
Definition L_new (l : Layer) (w : World) : nat * World :=
  (length (heap w), set_heap (heap w ++ [l]) w).

Definition hasLayer (stamp : nat) (w : World) : bool :=
  bool_decide (stamp ∈ map_layers w).

Definition addTo (stamp : nat) (w : World) : World :=
  let w := log (map_addLayer stamp) w in
  if hasLayer stamp w then w else set_map_layers (map_layers w ++ [stamp]) w.

Definition removeLayer (stamp : nat) (w : World) : World :=
  let w := log (map_removeLayer stamp) w in
  set_map_layers (filter (λ i, i ≠ stamp) (map_layers w)) w.

Definition getLatLng (stamp : nat) (w : World) : option LatLng :=
  match heap w !! stamp with
  | Some (L_marker latlng _ _) => Some latlng
  | _ => None
  end.

Definition setLatLng (stamp : nat) (latlng : LatLng) (w : World) : World :=
  match heap w !! stamp with
  | Some (L_marker _ icon popup) =>
      set_heap (<[stamp := L_marker latlng icon popup]> (heap w)) w
  | _ => w
  end.

(** [marker.openPopup()]: the popup bound to a marker that is on the map
    replaces the open popup. *)
Definition openPopup (stamp : nat) (w : World) : World :=
  match heap w !! stamp with
  | Some (L_marker latlng _ (Some content)) =>
      if hasLayer stamp w then set_map_popup (Some (latlng, content)) w else w
  | _ => w
  end.

Definition truthy (s : string) : bool := negb (bool_decide (s = "")).

(** ** The script *)

Definition Windhoek : LatLng := (Q2Qc (-22559 # 1000), Q2Qc (17083 # 1000)).

Definition initMap (i : Inputs) (geolocation : bool) : World :=
  {| heap := []; map_layers := []; map_view := setView Windhoek 13;
     map_popup := None; propertyMarkers := []; currentRouteLayer := None;
     userLocationMarker := None; propertyList := []; resultCount := "";
     estimated_price_value := ""; estimation_result_display := "none";
     inputs := i; navigator_geolocation := geolocation;
     pending := []; trace := [] |}.

Definition clearPropertyMarkers (w : World) : World :=
  set_propertyMarkers [] (foldl (λ w marker, removeLayer marker w) w (propertyMarkers w)).

Definition markerSize (property : Property.t) : Z :=
  if bool_decide (Property.price property > 200000) then 50 else 40.

Definition priceMarker (property : Property.t) : DivIcon :=
  {| className := "price-marker";
     html := "N$" +:+ toLocaleString (Property.price property);
     iconSize := (markerSize property, markerSize property);
     iconAnchor := None |}.

Definition popupContent (property : Property.t) : Content :=
  property_popup (Property.image property)
                 (toLocaleString (Property.price property))
                 (Property.bedrooms property) (Property.bathrooms property)
                 (Property.area property) (Property.address property)
                 (Property.lat property) (Property.lng property).

Arguments priceMarker : simpl never.
Arguments popupContent : simpl never.

Definition addPropertyToMap (property : Property.t) (w : World) : World :=
  let '(marker, w) :=
    L_new (L_marker (Property.lat property, Property.lng property)
                    (Some (priceMarker property))
                    (Some (popupContent property))) w in
  let w := addTo marker w in
  set_propertyMarkers (propertyMarkers w ++ [marker]) w.

Definition propertyCard (property : Property.t) : Card :=
  {| card_price := "N$" +:+ toLocaleString (Property.price property);
     card_bedrooms := Property.bedrooms property;
     card_bathrooms := Property.bathrooms property;
     card_address := Property.address property;
     card_type := Property.type property;
     card_latlng := (Property.lat property, Property.lng property) |}.

Arguments propertyCard : simpl never.

Definition addPropertyToList (property : Property.t) (w : World) : World :=
  set_propertyList (propertyList w ++ [propertyCard property]) w.

Definition displayProperties (properties : list Property.t) (w : World) : World :=
  let w := clearPropertyMarkers w in
  let w := set_propertyList [] w in
  let w := foldl (λ w property, addPropertyToList property (addPropertyToMap property w))
                 w properties in
  set_resultCount (pretty (length properties)) w.

Definition loadProperties (w : World) : World := request GET_properties w.

Definition showRoute (startLat startLng endLat endLng : Qc) (w : World) : World :=
  let w :=
    match currentRouteLayer w with
    | Some layer => removeLayer layer w
    | None => w
    end in
  request (GET_route startLat startLng endLat endLng) w.

Definition quoted (s : string) : string :=
  let q := String (ascii_of_nat 34) EmptyString in q +:+ s +:+ q.

Definition userIcon : DivIcon :=
  {| className := "user-location-marker";
     html := "<i class=" +:+ quoted "fas fa-user-circle fa-3x"
             +:+ " style=" +:+ quoted "color: #0d6efd;" +:+ "></i>";
     iconSize := (30, 30);
     iconAnchor := Some (15, 15) |}.

Definition getUserLocation (callback : option LatLng) (w : World) : World :=
  if navigator_geolocation w then request (getCurrentPosition callback) w
  else log (alert "Geolocation is not supported by your browser.") w.

Definition searchLocation (locationQuery : option string) (w : World) : World :=
  let locationQuery :=
    match locationQuery with
    | Some q => if truthy q then q else locationSearch (inputs w)
    | None => locationSearch (inputs w)
    end in
  if truthy locationQuery then request (GET_geocode locationQuery) w else w.

Definition checked (b : bool) (name : string) : list string :=
  if b then [name] else [].

Definition searchProperties (w : World) : World :=
  let i := inputs w in
  let searchCriteria :=
    {| SearchCriteria.location := location i;
       SearchCriteria.property_types :=
         checked (residential i) "residential" ++ checked (commercial i) "commercial"
         ++ checked (industrial i) "industrial";
       SearchCriteria.deal_types :=
         checked (for_sale i) "sale" ++ checked (for_rent i) "rent";
       SearchCriteria.min_price := min_price i;
       SearchCriteria.max_price := max_price i;
       SearchCriteria.bedrooms := bedrooms i;
       SearchCriteria.bathrooms := bathrooms i;
       SearchCriteria.proximities :=
         checked (schools i) "schools" ++ checked (hospitals i) "hospitals"
         ++ checked (transport i) "transport" ++ checked (shopping i) "shopping" |} in
  request (POST_search (JSON_stringify_searchCriteria searchCriteria) (location i)) w.

Definition estimateData (i : Inputs) : EstimateData.t :=
  {| EstimateData.property_type := est_property_type i;
     EstimateData.location := est_location i;
     EstimateData.bedrooms := parseInt (est_bedrooms i);
     EstimateData.bathrooms := parseInt (est_bathrooms i);
     EstimateData.area := parseFloat (est_area i);
     EstimateData.age := parseInt (est_age i);
     EstimateData.condition := est_condition i;
     EstimateData.garage := est_garage i;
     EstimateData.pool := est_pool i;
     EstimateData.garden := est_garden i;
     EstimateData.security := est_security i;
     EstimateData.aircon := est_aircon i;
     EstimateData.furnished := est_furnished i |}.

Definition calculatePriceEstimate (w : World) : World :=
  let propertyType := est_property_type (inputs w) in
  let location := est_location (inputs w) in
  let area := parseFloat (est_area (inputs w)) in
  if negb (truthy propertyType) || negb (truthy location) || isNaN area || le_zero area then
    log (alert "Please fill in all required fields.") w
  else
    request (POST_estimate_price (JSON_stringify_estimateData (estimateData (inputs w)))) w.

(** ** Handlers *)

(** The [then] handler of [showRoute]. *)
Definition route_then (routeData : Route.t) (w : World) : World :=
  if Route.success routeData then
    let points :=
      Route.start routeData :: Route.waypoints routeData ++ [Route.end_ routeData] in
    let '(layer, w) := L_new (L_polyline points "#0d6efd" 5 (Q2Qc (7 # 10))) w in
    let w := set_currentRouteLayer (Some layer) (addTo layer w) in
    let w := set_map_view (fitBounds points (50, 50)) w in
    let message :=
      route_message (Route.distance routeData) (Math_round (Route.duration routeData)) in
    match points !! Math_floor_half (length points) with
    | Some anchor => set_map_popup (Some (anchor, message)) w
    | None => log (console_error "Error calculating route:" "TypeError") w
    end
  else w.

Definition route_catch (error : string) (w : World) : World :=
  log (console_error "Error calculating route:" error) w.

(** The [then] handler of [searchLocation]; the popup of the new marker is
    bound when the marker is made. *)
Definition geocode_then (data : Geocode.t) (w : World) : World :=
  if Geocode.success data then
    let latlng := (Geocode.lat data, Geocode.lng data) in
    let w := set_map_view (setView latlng 14) w in
    let '(marker, w) :=
      L_new (L_marker latlng None (Some (text_content (Geocode.formatted_address data)))) w in
    openPopup marker (addTo marker w)
  else
    let message :=
      match Geocode.error data with
      | Some error => if truthy error then error else "Location not found"
      | None => "Location not found"
      end in
    log (alert message) w.

Definition geocode_catch (error : string) (w : World) : World :=
  log (console_error "Error searching location:" error) w.

Definition properties_then (properties : list Property.t) (w : World) : World :=
  displayProperties properties w.

Definition search_then (location : string) (properties : list Property.t) (w : World) : World :=
  let w := displayProperties properties w in
  if truthy location then searchLocation (Some location) w else w.

Definition estimate_then (estimated_price : Z) (w : World) : World :=
  set_estimation ("$" +:+ toLocaleString estimated_price) "block" w.

Definition estimate_catch (error : string) (w : World) : World :=
  log (alert "An error occurred while calculating the price estimate.")
      (log (console_error "Error calculating estimate:" error) w).

(** The success callback of [getUserLocation]. *)
Definition position_then (callback : option LatLng) (lat lng : Qc) (w : World) : World :=
  let w :=
    match userLocationMarker w with
    | Some marker => setLatLng marker (lat, lng) w
    | None =>
        let '(marker, w) := L_new (L_marker (lat, lng) (Some userIcon) None) w in
        set_userLocationMarker (Some marker) (addTo marker w)
    end in
  let w := set_map_view (setView (lat, lng) 15) w in
  match callback with
  | Some (endLat, endLng) => showRoute lat lng endLat endLng w
  | None => w
  end.

Definition position_catch (error : string) (w : World) : World :=
  log (alert "Could not determine your location. Please allow location access.")
      (log (console_error "Error getting location:" error) w).

(** The click handler of the route button of an open property popup. *)
Definition route_btn_click (lat lng : Qc) (w : World) : World :=
  match userLocationMarker w with
  | Some marker =>
      match getLatLng marker w with
      | Some (userLat, userLng) => showRoute userLat userLng lat lng w
      | None => w
      end
  | None => getUserLocation (Some (lat, lng)) w
  end.

(** The click handler of a card of the sidebar list. *)
Definition card_click (c : Card) (w : World) : World :=
  let w := set_map_view (setView (card_latlng c) 16) w in
  foldl (λ w marker,
           if bool_decide (getLatLng marker w = Some (card_latlng c))
           then openPopup marker w else w)
        w (propertyMarkers w).

(** ** The event loop *)

Inductive Reply :=
| rejected (error : string)
| properties_json (properties : list Property.t)
| geocode_json (data : Geocode.t)
| route_json (routeData : Route.t)
| estimate_json (estimated_price : Z)
| position (latitude longitude : Qc)
| position_error (error : string).

(** The handler a reply runs; a reply of the wrong kind for the request
    cannot occur. *)
Definition settle (r : Request) (reply : Reply) (w : World) : option World :=
  match r, reply with
  | GET_properties, properties_json properties => Some (properties_then properties w)
  | GET_properties, rejected error =>
      Some (log (console_error "Error loading properties:" error) w)
  | POST_search _ location, properties_json properties =>
      Some (search_then location properties w)
  | POST_search _ _, rejected error =>
      Some (log (console_error "Error searching properties:" error) w)
  | GET_geocode _, geocode_json data => Some (geocode_then data w)
  | GET_geocode _, rejected error => Some (geocode_catch error w)
  | GET_route _ _ _ _, route_json routeData => Some (route_then routeData w)
  | GET_route _ _ _ _, rejected error => Some (route_catch error w)
  | POST_estimate_price _, estimate_json estimated_price =>
      Some (estimate_then estimated_price w)
  | POST_estimate_price _, rejected error => Some (estimate_catch error w)
  | getCurrentPosition callback, position lat lng => Some (position_then callback lat lng w)
  | getCurrentPosition _, position_error error => Some (position_catch error w)
  | _, _ => None
  end.

(** What the user and the network do.  Pressing Enter in the location search
    field is [click_locationSearchBtn]: both handlers call [searchLocation()].
    [click_route_btn] is the route button of the open property popup; its
    [data-lat] and [data-lng] hold the coordinates of the property. *)
Inductive Event :=
| edit (i : Inputs)
| click_currentLocation
| click_calculateEstimateBtn
| submit_property_search_form
| click_locationSearchBtn
| click_marker (stamp : nat)
| click_card (n : nat)
| click_route_btn
| close_popup
| deliver (n : nat) (reply : Reply).

Definition step (w : World) (e : Event) : option World :=
  match e with
  | edit i => Some (set_inputs i w)
  | click_currentLocation => Some (getUserLocation None w)
  | click_calculateEstimateBtn => Some (calculatePriceEstimate w)
  | submit_property_search_form => Some (searchProperties w)
  | click_locationSearchBtn => Some (searchLocation None w)
  | click_marker stamp =>
      match heap w !! stamp with
      | Some (L_marker _ _ (Some _)) =>
          if hasLayer stamp w then Some (openPopup stamp w) else None
      | _ => None
      end
  | click_card n =>
      match propertyList w !! n with
      | Some c => Some (card_click c w)
      | None => None
      end
  | click_route_btn =>
      match map_popup w with
      | Some (_, property_popup _ _ _ _ _ _ lat lng) => Some (route_btn_click lat lng w)
      | _ => None
      end
  | close_popup => Some (set_map_popup None w)
  | deliver n reply =>
      match pending w !! n with
      | Some r => settle r reply (set_pending (delete n (pending w)) w)
      | None => None
      end
  end.

Fixpoint run (w : World) (es : list Event) : option World :=
  match es with
  | [] => Some w
  | e :: es' =>
      match step w e with
      | Some w' => run w' es'
      | None => None
      end
  end.

(** The page once [DOMContentLoaded] has run [initMap], [initUI] and
    [loadProperties]. *)
Definition page_loaded (i : Inputs) (geolocation : bool) : World :=
  loadProperties (initMap i geolocation).

(** ** Observations *)

Definition layer_is_route (w : World) (stamp : nat) : bool :=
  match heap w !! stamp with
  | Some l => is_polyline l
  | None => false
  end.

(** The route layers shown on the map. *)
Definition routes_on_map (w : World) : list nat :=
  filter (λ stamp, layer_is_route w stamp = true) (map_layers w).

Definition route_requests (w : World) : list Request :=
  filter (λ r, is_route_request r = true) (pending w).

Definition fetches (t : list Effect) : list Request :=
  omap (λ e, match e with
             | issued r => if is_fetch r then Some r else None
             | _ => None
             end) t.

Definition alerts (t : list Effect) : list string :=
  omap (λ e, match e with alert m => Some m | _ => None end) t.

(** * Vocabulary of the properties *)

(** The marker [addPropertyToMap] makes for a property. *)
Definition property_marker (property : Property.t) : Layer :=
  L_marker (Property.lat property, Property.lng property)
           (Some (priceMarker property)) (Some (popupContent property)).

(** [addTo] for each stamp in turn, on the list of overlays. *)
Definition add_all (layers stamps : list nat) : list nat :=
  foldl (λ ls i, if bool_decide (i ∈ ls) then ls else ls ++ [i]) layers stamps.

(** A parsed field is a strictly positive number. *)
Definition strictly_positive (n : number) : Prop :=
  match n with
  | NaN => False
  | Infinity negative => negative = false
  | Fin q => (0 < q)%Qc
  end.

Definition example_inputs : Inputs :=
  {| locationSearch := "Windhoek"; location := "Windhoek";
     residential := false; commercial := false;
     industrial := false; for_sale := false; for_rent := false; min_price := "";
     max_price := ""; bedrooms := ""; bathrooms := ""; schools := false;
     hospitals := false; transport := false; shopping := false;
     est_property_type := "house"; est_location := "Windhoek"; est_bedrooms := "";
     est_bathrooms := "two"; est_area := "120.5"; est_age := ""; est_condition := "good";
     est_garage := true; est_pool := false; est_garden := false;
     est_security := false; est_aircon := false; est_furnished := false |}.

Definition set_est_area (area : string) (i : Inputs) : Inputs :=
  {| locationSearch := locationSearch i; location := location i;
     residential := residential i; commercial := commercial i;
     industrial := industrial i; for_sale := for_sale i; for_rent := for_rent i;
     min_price := min_price i; max_price := max_price i; bedrooms := bedrooms i;
     bathrooms := bathrooms i; schools := schools i; hospitals := hospitals i;
     transport := transport i; shopping := shopping i;
     est_property_type := est_property_type i; est_location := est_location i;
     est_bedrooms := est_bedrooms i; est_bathrooms := est_bathrooms i;
     est_area := area; est_age := est_age i; est_condition := est_condition i;
     est_garage := est_garage i; est_pool := est_pool i; est_garden := est_garden i;
     est_security := est_security i; est_aircon := est_aircon i;
     est_furnished := est_furnished i |}.

Definition not_found (error : option string) : Geocode.t :=
  {| Geocode.success := false; Geocode.lat := 0%Qc; Geocode.lng := 0%Qc;
     Geocode.formatted_address := ""; Geocode.error := error |}.

(** The array [points] of the handler of [showRoute]. *)
Definition route_points (routeData : Route.t) : list LatLng :=
  Route.start routeData :: Route.waypoints routeData ++ [Route.end_ routeData].

Definition example_route : Route.t :=
  {| Route.success := true;
     Route.start := (Qc_of_Z 0, Qc_of_Z 0);
     Route.waypoints := [(Qc_of_Z 1, Qc_of_Z 1); (Qc_of_Z 2, Qc_of_Z 2)];
     Route.end_ := (Qc_of_Z 3, Qc_of_Z 3);
     Route.distance := Q2Qc (42 # 10);
     Route.duration := Q2Qc (25 # 2) |}.

(** A page on which a route is displayed. *)
Definition world_with_route : World :=
  route_then example_route (page_loaded example_inputs true).

Definition failed_route : Route.t :=
  {| Route.success := false;
     Route.start := (Qc_of_Z 0, Qc_of_Z 0);
     Route.waypoints := [];
     Route.end_ := (Qc_of_Z 0, Qc_of_Z 0);
     Route.distance := Qc_of_Z 0;
     Route.duration := Qc_of_Z 0 |}.

(** What the map shows: its overlays with their contents, its view and its
    open popup. *)
Definition map_display (w : World)
  : list (nat * option Layer) * View * option (LatLng * Content) :=
  ((λ stamp, (stamp, heap w !! stamp)) <$> map_layers w, map_view w, map_popup w).

(** The number a JSON value is, when it is one. *)
Definition number_of_json (j : json) : option number :=
  match j with
  | JNumber q => Some (Fin q)
  | _ => None
  end.

(** The body has a member of that name whose value is the number [n]. *)
Definition body_has_number (name : string) (n : number) (body : json) : Prop :=
  ∃ j, member name body = Some j ∧ number_of_json j = Some n.

(** The three fields [calculatePriceEstimate] validates pass. *)
Definition valid_estimate_form (i : Inputs) : Prop :=
  est_property_type i ≠ "" ∧ est_location i ≠ ""
  ∧ strictly_positive (parseFloat (est_area i)).

Definition estimate_world : World := page_loaded example_inputs true.

(** [w'] has the same objects, of the same kinds, the same overlays, the same
    tracked markers, the same route reference and the same route requests in
    flight as [w]. *)
Definition unchanged (w w' : World) : Prop :=
  length (heap w') = length (heap w)
  ∧ (∀ i, layer_is_route w' i = layer_is_route w i)
  ∧ map_layers w' = map_layers w
  ∧ propertyMarkers w' = propertyMarkers w
  ∧ currentRouteLayer w' = currentRouteLayer w
  ∧ route_requests w' = route_requests w.

(** A new object put on the map: [L.marker(...).addTo(map)] and
    [L.polyline(...).addTo(map)]. *)
Definition add_layer (l : Layer) (w : World) : World :=
  addTo (length (heap w)) (set_heap (heap w ++ [l]) w).

(** The part of [position_then] before the callback. *)
Definition place_user (lat lng : Qc) (w : World) : World :=
  set_map_view (setView (lat, lng) 15)
    match userLocationMarker w with
    | Some marker => setLatLng marker (lat, lng) w
    | None =>
        set_userLocationMarker (Some (length (heap w)))
          (add_layer (L_marker (lat, lng) (Some userIcon) None) w)
    end.

(** Whether the event makes the script call [showRoute]. *)
Definition calls_showRoute (w : World) (e : Event) : bool :=
  match e with
  | click_route_btn => bool_decide (is_Some (userLocationMarker w))
  | deliver n (position _ _) =>
      match pending w !! n with
      | Some (getCurrentPosition (Some _)) => true
      | _ => false
      end
  | _ => false
  end.

(** Every stamp the map or a variable of the script holds is the stamp of an
    object that was made. *)
Definition allocated (w : World) : Prop :=
  ∀ i, i ∈ map_layers w ∨ i ∈ propertyMarkers w ∨ currentRouteLayer w = Some i →
       (i < length (heap w))%nat.

(** The object [m] is on the map, and neither [propertyMarkers] nor
    [currentRouteLayer] refers to it. *)
Definition untracked_on_map (m : nat) (w : World) : Prop :=
  m ∈ map_layers w
  ∧ (m ∉ propertyMarkers w)
  ∧ currentRouteLayer w ≠ Some m
  ∧ (m < length (heap w))%nat.

(** The marker the handler of [searchLocation] makes for a found location. *)
Definition geocode_marker (data : Geocode.t) : Layer :=
  L_marker (Geocode.lat data, Geocode.lng data) None
           (Some (text_content (Geocode.formatted_address data))).

Definition found_Windhoek : Geocode.t :=
  {| Geocode.success := true;
     Geocode.lat := Q2Qc (-22559 # 1000); Geocode.lng := Q2Qc (17083 # 1000);
     Geocode.formatted_address := "Windhoek, Namibia"; Geocode.error := None |}.

Definition example_property : Property.t :=
  {| Property.lat := Q2Qc (-2256 # 100); Property.lng := Q2Qc (1708 # 100);
     Property.price := 250000; Property.bedrooms := 3; Property.bathrooms := 2;
     Property.area := Qc_of_Z 120; Property.address := "12 Independence Ave";
     Property.image := "house.jpg"; Property.type := "residential" |}.

Definition no_route_on_map (w : World) : Prop :=
  ∀ i, i ∈ map_layers w → layer_is_route w i = false.

(** Every route layer on the map is the one [currentRouteLayer] refers to,
    and while a route request is in flight it is the only one and the map
    shows no route. *)
Definition route_invariant (w : World) : Prop :=
  NoDup (map_layers w)
  ∧ (∀ i, i ∈ map_layers w → layer_is_route w i = true → currentRouteLayer w = Some i)
  ∧ (route_requests w = [] ∨ (length (route_requests w) = 1%nat ∧ no_route_on_map w)).

Definition no_route_request (w : World) : Prop := route_requests w = [].

(** No event of the sequence calls [showRoute] while a route request is in
    flight. *)
Fixpoint sequential (w : World) (es : list Event) : bool :=
  match es with
  | [] => true
  | e :: es' =>
      (negb (calls_showRoute w e)
       || match route_requests w with [] => true | _ => false end)
      && match step w e with
         | Some w' => sequential w' es'
         | None => true
         end
  end.

(** The properties are shown, the popup of the first is open and the user is
    located: markers 0 and 1. *)
Definition user_located : list Event :=
  [deliver 0 (properties_json [example_property]);
   click_marker 0;
   click_currentLocation;
   deliver 0 (position (Q2Qc (-2257 # 100)) (Q2Qc (1709 # 100)))].

(** Two clicks on the route button before the first reply, then the two
    replies. *)
Definition overlapping_clicks : list Event :=
  user_located
  ++ [click_route_btn;
      click_route_btn;
      deliver 0 (route_json example_route);
      deliver 0 (route_json example_route)].

(** One click on the route button and its reply; the popup of the property
    is then opened again. *)
Definition route_shown : list Event :=
  user_located
  ++ [click_route_btn;
      deliver 0 (route_json example_route);
      click_marker 0].

(** A second click, made after the reply to the first, and its reply. *)
Definition successive_clicks : list Event :=
  route_shown
  ++ [click_route_btn;
      deliver 0 (route_json example_route)].

(** ** Vocabulary of the properties of the whole page *)

(** [w'] has the same objects, overlays, tracked markers, route and user
    references, sidebar list, result count and estimate as [w]: only the
    view, the open popup, the form, the pending requests and the trace may
    differ. *)
Definition same_content (w w' : World) : Prop :=
  heap w' = heap w
  ∧ map_layers w' = map_layers w
  ∧ propertyMarkers w' = propertyMarkers w
  ∧ currentRouteLayer w' = currentRouteLayer w
  ∧ userLocationMarker w' = userLocationMarker w
  ∧ propertyList w' = propertyList w
  ∧ resultCount w' = resultCount w
  ∧ estimated_price_value w' = estimated_price_value w
  ∧ estimation_result_display w' = estimation_result_display w
  ∧ navigator_geolocation w' = navigator_geolocation w.

(** The marker and the card of the sidebar were made from one property, and
    the marker is on the map. *)
Definition marker_matches_card (w : World) (m : nat) (c : Card) : Prop :=
  m ∈ map_layers w
  ∧ ∃ property, heap w !! m = Some (property_marker property) ∧ c = propertyCard property.

(** The object is a marker with the icon of the user's location. *)
Definition is_user_marker (l : Layer) : Prop :=
  ∃ latlng popup, l = L_marker latlng (Some userIcon) popup.

(** What every page reached from the loaded page satisfies. *)
Definition page_invariant (w : World) : Prop :=
  allocated w
  ∧ NoDup (map_layers w)
  ∧ NoDup (propertyMarkers w)
  ∧ Forall2 (marker_matches_card w) (propertyMarkers w) (propertyList w)
  ∧ (resultCount w = "" ∧ propertyMarkers w = []
     ∨ resultCount w = pretty (length (propertyMarkers w)))
  ∧ (∀ l, currentRouteLayer w = Some l → layer_is_route w l = true)
  ∧ (∀ u, userLocationMarker w = Some u →
          u ∈ map_layers w ∧ ∃ l, heap w !! u = Some l ∧ is_user_marker l)
  ∧ (∀ s l, heap w !! s = Some l → is_user_marker l → userLocationMarker w = Some s).

#[global] Instance DivIcon_eq_dec : EqDecision DivIcon.
Proof. solve_decision. Defined.

(** The object of that stamp is a marker with the icon of the user's
    location. *)
Definition shows_user (w : World) (stamp : nat) : bool :=
  match heap w !! stamp with
  | Some (L_marker _ (Some icon) _) => bool_decide (icon = userIcon)
  | _ => false
  end.

(** The markers of the user's location shown on the map. *)
Definition user_markers_on_map (w : World) : list nat :=
  filter (λ stamp, shows_user w stamp = true) (map_layers w).

(** The popup [marker.openPopup()] would open: the one bound to a marker
    that is on the map. *)
Definition bound_popup (w : World) (stamp : nat) : option (LatLng * Content) :=
  match heap w !! stamp with
  | Some (L_marker latlng _ (Some content)) =>
      if hasLayer stamp w then Some (latlng, content) else None
  | _ => None
  end.

Definition coordinates (property : Property.t) : LatLng :=
  (Property.lat property, Property.lng property).



(** The request asks the browser for a position or the server for a route. *)
Definition asks_position_or_route (r : Request) : bool :=
  match r with
  | GET_route _ _ _ _ | getCurrentPosition _ => true
  | _ => false
  end.

Definition quiet_effect (e : Effect) : bool :=
  match e with
  | issued r => negb (asks_position_or_route r)
  | _ => true
  end.

(** Nothing of the page has to do with the user's position or a route. *)
Definition never_located (w : World) : Prop :=
  navigator_geolocation w = false
  ∧ userLocationMarker w = None
  ∧ currentRouteLayer w = None
  ∧ Forall (λ r, asks_position_or_route r = false) (pending w)
  ∧ Forall (λ e, quiet_effect e = true) (trace w)
  ∧ Forall (λ l, is_polyline l = false) (heap w).

(** * Properties *)

(** ** Reading numbers: examples *)

Example parseInt_of_empty_text : parseInt "" = NaN.
Proof. reflexivity. Qed.

Example parseInt_of_words : parseInt "two" = NaN.
Proof. reflexivity. Qed.

Example parseInt_reads_leading_digits : parseInt " 3 rooms" = Fin (Qc_of_Z 3).
Proof. by vm_compute. Qed.

Example parseFloat_of_decimal : parseFloat "120.5" = Fin (Q2Qc (241 # 2)).
Proof. vm_compute. f_equal. by apply Qc_is_canon. Qed.

Example parseFloat_of_empty_text : parseFloat "" = NaN.
Proof. reflexivity. Qed.

Example parseFloat_of_negative : le_zero (parseFloat "-4") = true.
Proof. by vm_compute. Qed.

Example parseFloat_underflows_to_zero : parseFloat "1e-400" = Fin 0%Qc.
Proof. by vm_compute. Qed.

Example toLocaleString_of_million : toLocaleString 1234567 = "1,234,567".
Proof. by vm_compute. Qed.

Example Math_round_of_half : Math_round (Q2Qc (25 # 2)) = 13.
Proof. reflexivity. Qed.

(** ** Rendering a result set *)

(** Two worlds with the same fields are the same world. *)
Lemma World_eq (a b : World) :
  heap a = heap b →
  map_layers a = map_layers b →
  map_view a = map_view b →
  map_popup a = map_popup b →
  propertyMarkers a = propertyMarkers b →
  currentRouteLayer a = currentRouteLayer b →
  userLocationMarker a = userLocationMarker b →
  propertyList a = propertyList b →
  resultCount a = resultCount b →
  estimated_price_value a = estimated_price_value b →
  estimation_result_display a = estimation_result_display b →
  inputs a = inputs b →
  navigator_geolocation a = navigator_geolocation b →
  pending a = pending b →
  trace a = trace b →
  a = b.
Proof. destruct a, b; cbn; intros; by subst. Qed.

Lemma filter_filter_ne (m : nat) (ms ls : list nat) :
  filter (λ i, i ∉ ms) (filter (λ i, i ≠ m) ls) = filter (λ i, i ∉ m :: ms) ls.
Proof.
  induction ls as [|x ls IH]; [done|].
  rewrite !filter_cons. destruct (decide (x ≠ m)) as [Hne|Heq].
  - rewrite filter_cons. destruct (decide (x ∉ ms)) as [Hx|Hx].
    + rewrite decide_True by (rewrite not_elem_of_cons; done). by rewrite IH.
    + rewrite decide_False by (rewrite not_elem_of_cons; tauto). done.
  - rewrite decide_False by (rewrite not_elem_of_cons; tauto). done.
Qed.

Lemma filter_not_in_nil (ls : list nat) : filter (λ i, i ∉ @nil nat) ls = ls.
Proof.
  induction ls as [|x ls IH]; [done|].
  rewrite filter_cons, decide_True by apply not_elem_of_nil. by rewrite IH.
Qed.

Lemma clear_loop (ms : list nat) (w : World) :
  foldl (λ w marker, removeLayer marker w) w ms
  = set_trace (trace w ++ (map_removeLayer <$> ms))
      (set_map_layers (filter (λ i, i ∉ ms) (map_layers w)) w).
Proof.
  revert w. induction ms as [|m ms IH]; intros w.
  - apply World_eq; cbn; try done.
    + by rewrite filter_not_in_nil.
    + by rewrite app_nil_r.
  - cbn [foldl]. rewrite IH. apply World_eq; cbn; try done.
    + apply filter_filter_ne.
    + by rewrite <- app_assoc.
Qed.

Lemma add_loop (ps : list Property.t) (w : World) :
  foldl (λ w property, addPropertyToList property (addPropertyToMap property w)) w ps
  = set_trace (trace w ++ (map_addLayer <$> seq (length (heap w)) (length ps)))
      (set_propertyList (propertyList w ++ (propertyCard <$> ps))
         (set_propertyMarkers (propertyMarkers w ++ seq (length (heap w)) (length ps))
            (set_map_layers (add_all (map_layers w) (seq (length (heap w)) (length ps)))
               (set_heap (heap w ++ (property_marker <$> ps)) w)))).
Proof.
  revert w. induction ps as [|p ps IH]; intros w.
  - apply World_eq; cbn; by rewrite ?app_nil_r.
  - cbn [foldl]. rewrite IH.
    assert (Hlen : length (heap (addPropertyToList p (addPropertyToMap p w)))
                   = S (length (heap w))).
    { unfold addPropertyToMap, L_new, addTo. cbn.
      destruct (hasLayer _ _); cbn; rewrite length_app; cbn; lia. }
    rewrite Hlen. clear Hlen IH.
    apply World_eq; unfold addPropertyToMap, L_new, addTo;
      cbn -[hasLayer]; destruct (hasLayer _ _) eqn:Hhas; cbn; try done;
      rewrite <- ?app_assoc; try done.
    + unfold add_all. cbn [foldl]. unfold hasLayer in Hhas. cbn in Hhas. by rewrite Hhas.
    + unfold add_all. cbn [foldl]. unfold hasLayer in Hhas. cbn in Hhas. by rewrite Hhas.
Qed.

Lemma displayProperties_eq (ps : list Property.t) (w : World) :
  displayProperties ps w
  = {| heap := heap w ++ (property_marker <$> ps);
       map_layers :=
         add_all (filter (λ i, i ∉ propertyMarkers w) (map_layers w))
                 (seq (length (heap w)) (length ps));
       map_view := map_view w;
       map_popup := map_popup w;
       propertyMarkers := seq (length (heap w)) (length ps);
       currentRouteLayer := currentRouteLayer w;
       userLocationMarker := userLocationMarker w;
       propertyList := propertyCard <$> ps;
       resultCount := pretty (length ps);
       estimated_price_value := estimated_price_value w;
       estimation_result_display := estimation_result_display w;
       inputs := inputs w;
       navigator_geolocation := navigator_geolocation w;
       pending := pending w;
       trace := trace w ++ (map_removeLayer <$> propertyMarkers w)
                ++ (map_addLayer <$> seq (length (heap w)) (length ps)) |}.
Proof.
  unfold displayProperties, clearPropertyMarkers.
  rewrite add_loop, clear_loop.
  apply World_eq; cbn; try done. by rewrite <- app_assoc.
Qed.

Lemma elem_of_add_all (i : nat) (stamps layers : list nat) :
  i ∈ add_all layers stamps ↔ i ∈ layers ∨ i ∈ stamps.
Proof.
  revert layers. induction stamps as [|s stamps IH]; intros layers; cbn.
  - rewrite elem_of_nil. tauto.
  - unfold add_all in *. cbn [foldl]. rewrite IH, elem_of_cons.
    case_bool_decide as Hs.
    + split; [tauto|]. intros [?|[->|?]]; tauto.
    + rewrite elem_of_app, list_elem_of_singleton. tauto.
Qed.

Lemma NoDup_add_all (stamps layers : list nat) :
  NoDup layers → NoDup (add_all layers stamps).
Proof.
  revert layers. induction stamps as [|s stamps IH]; intros layers Hnd; [done|].
  unfold add_all in *. cbn [foldl]. apply IH. case_bool_decide as Hs; [done|].
  apply NoDup_app. split_and!; [done| |apply NoDup_singleton].
  intros x Hx ->%list_elem_of_singleton. done.
Qed.

(** C1.  Rendering a result set [R1] and then a result set [R2] leaves in
    [propertyMarkers] exactly one marker per property of [R2], in order, each
    on the map and made from its property; no marker of [R1] is in the
    collection or on the map any more, every marker of [R1] having been
    removed from the map before the first marker of [R2] was added; and the
    result count shows the number of properties of [R2], zero included. *)
Theorem displayProperties_replaces_result_set
    (R1 R2 : list Property.t) (w0 : World) :
  let w1 := displayProperties R1 w0 in
  let w2 := displayProperties R2 w1 in
  length (propertyMarkers w2) = length R2
  ∧ NoDup (propertyMarkers w2)
  ∧ Forall2 (λ m property, heap w2 !! m = Some (property_marker property)
                           ∧ m ∈ map_layers w2)
            (propertyMarkers w2) R2
  ∧ Forall (λ m, (m ∉ propertyMarkers w2) ∧ (m ∉ map_layers w2)) (propertyMarkers w1)
  ∧ trace w2 = trace w1 ++ (map_removeLayer <$> propertyMarkers w1)
               ++ (map_addLayer <$> propertyMarkers w2)
  ∧ resultCount w2 = pretty (length R2)
  ∧ propertyMarkers (displayProperties [] w1) = []
  ∧ resultCount (displayProperties [] w1) = "0".
Proof.
  intros w1 w2. subst w2 w1. rewrite !displayProperties_eq. cbn.
  rewrite length_app, length_fmap.
  set (n0 := length (heap w0)). set (n1 := (n0 + length R1)%nat).
  split_and!; try done.
  - apply length_seq.
  - apply NoDup_seq.
  - apply Forall2_same_length_lookup_2.
    + by rewrite length_seq.
    + intros i m p Hm Hp. apply lookup_seq in Hm as [-> Hi]. split.
      * rewrite lookup_app_r; rewrite length_app, length_fmap; fold n0 n1; [|lia].
        replace (n1 + i - n1)%nat with i by lia.
        by rewrite list_lookup_fmap, Hp.
      * apply elem_of_add_all. right. apply elem_of_seq. lia.
  - apply Forall_forall. intros m Hm. apply elem_of_seq in Hm. split.
    + rewrite elem_of_seq. lia.
    + rewrite elem_of_add_all, list_elem_of_filter, !elem_of_seq. lia.
Qed.

(** ** Price markers *)

Lemma concat_length_3 (gs : list (list ascii)) :
  Forall (λ g, length g = 3%nat) gs → length (concat gs) = (3 * length gs)%nat.
Proof.
  induction 1 as [|g gs Hg _ IH]; [done|].
  cbn [concat length]. rewrite length_app. lia.
Qed.

(** [group3] cuts the digits into a first group of at most three and further
    groups of exactly three, each after a comma. *)
Lemma group3_groups (ds : list ascii) :
  ∃ first rest,
    ds = first ++ concat rest
    ∧ group3 ds = first ++ concat ((λ g, ","%char :: g) <$> rest)
    ∧ (length first ≤ 3)%nat
    ∧ (ds ≠ [] → (1 ≤ length first)%nat)
    ∧ Forall (λ g, length g = 3%nat) rest.
Proof.
  induction ds as [|d ds IH].
  - exists [], []. split_and!; cbn; try done; try lia; constructor.
  - destruct IH as (first & rest & Hds & Hgroup & Hle & Hge & Hrest).
    pose proof (concat_length_3 rest Hrest) as Hlen.
    assert (Hsize : length ds = (length first + 3 * length rest)%nat).
    { rewrite Hds at 1. rewrite length_app. lia. }
    cbn [group3]. destruct (decide (ds = [])) as [->|Hne].
    + exists [d], []. split_and!; cbn; try done; try lia; constructor.
    + specialize (Hge Hne). rewrite bool_decide_eq_true_2 by done. cbn [andb].
      case_bool_decide as Hmod.
      * exists [d], (first :: rest). rewrite Hgroup.
        assert (Hfirst : length first = 3%nat).
        { rewrite Hsize in Hmod.
          replace (length first + 3 * length rest)%nat
            with (length first + length rest * 3)%nat in Hmod by lia.
          rewrite Nat.Div0.mod_add in Hmod.
          destruct (length first) as [|[|[|[|k]]]]; cbn in Hmod; lia. }
        split_and!; cbn; try done; try lia.
        -- by rewrite <- Hds.
        -- by constructor.
      * exists (d :: first), rest. rewrite Hgroup.
        assert (Hfirst : length first ≠ 3%nat).
        { intros H3. apply Hmod. rewrite Hsize, H3.
          replace (3 + 3 * length rest)%nat with (0 + (1 + length rest) * 3)%nat by lia.
          by rewrite Nat.Div0.mod_add. }
        split_and!; cbn; try done; try lia.
        by rewrite <- Hds.
Qed.


(** C2.  The size of a property marker depends on the price alone: it is the
    large size, 50, exactly when the price is above 200000, and the small
    size, 40, otherwise.  The label is [N$] followed by the price with its
    thousands separated: the decimal digits in a first group of at most three
    and further groups of three, each after a comma.  The marker
    [addPropertyToMap] makes carries that icon, and rendering one property of
    price 250000 leaves exactly one marker, of the large size, labelled
    [N$250,000]. *)
Theorem marker_size_by_price_threshold (property : Property.t) (w : World) :
  iconSize (priceMarker property) = (markerSize property, markerSize property)
  ∧ (markerSize property = 50 ↔ Property.price property > 200000)
  ∧ (markerSize property = 40 ↔ Property.price property ≤ 200000)
  ∧ html (priceMarker property) = "N$" +:+ toLocaleString (Property.price property)
  ∧ (∃ first rest,
       String.list_ascii_of_string (pretty (Z.abs (Property.price property)))
       = first ++ concat rest
       ∧ (length first ≤ 3)%nat
       ∧ Forall (λ g, length g = 3%nat) rest
       ∧ html (priceMarker property)
         = "N$" +:+ (if bool_decide (Property.price property < 0) then "-" else "")
           +:+ String.string_of_list_ascii
                 (first ++ concat ((λ g, ","%char :: g) <$> rest)))
  ∧ heap (addPropertyToMap property w) !! length (heap w)
    = Some (L_marker (Property.lat property, Property.lng property)
                     (Some (priceMarker property)) (Some (popupContent property)))
  ∧ let p :=
      {| Property.lat := Property.lat property; Property.lng := Property.lng property;
         Property.price := 250000;
         Property.bedrooms := Property.bedrooms property;
         Property.bathrooms := Property.bathrooms property;
         Property.area := Property.area property;
         Property.address := Property.address property;
         Property.image := Property.image property;
         Property.type := Property.type property |} in
    propertyMarkers (displayProperties [p] w) = [length (heap w)]
    ∧ heap (displayProperties [p] w) !! length (heap w)
      = Some (L_marker (Property.lat property, Property.lng property)
                (Some {| className := "price-marker"; html := "N$250,000";
                         iconSize := (50, 50); iconAnchor := None |})
                (Some (popupContent p))).
Proof.
  split_and!.
  - done.
  - unfold markerSize. case_bool_decide; split; intros; (done || lia).
  - unfold markerSize. case_bool_decide; split; intros; (done || lia).
  - done.
  - destruct (group3_groups
                (String.list_ascii_of_string (pretty (Z.abs (Property.price property)))))
      as (first & rest & Hdigits & Hgroup & Hfirst & _ & Hrest).
    exists first, rest. split_and!; try done.
    unfold priceMarker, toLocaleString. cbn [html]. by rewrite Hgroup.
  - unfold addPropertyToMap, L_new, addTo. cbn -[hasLayer].
    destruct (hasLayer _ _); cbn; by apply list_lookup_middle.
  - intros p. rewrite displayProperties_eq. cbn. split; [done|].
    by apply list_lookup_middle.
Qed.

(** ** The price estimate form *)

Lemma not_strictly_positive (n : number) :
  ¬ strictly_positive n → isNaN n || le_zero n = true.
Proof.
  destruct n as [|[]|q]; cbn; try done.
  intros H. apply bool_decide_eq_true. by apply Qcnot_lt_le.
Qed.

(** C4.  When the property type is empty, or the location is empty, or the
    parsed area is not a strictly positive number, [calculatePriceEstimate]
    only shows the validation message: no request is issued, nothing is left
    pending, and the rest of the page is as before. *)
Theorem calculatePriceEstimate_blocks_invalid_form (w : World) :
  est_property_type (inputs w) = ""
  ∨ est_location (inputs w) = ""
  ∨ ¬ strictly_positive (parseFloat (est_area (inputs w))) →
  calculatePriceEstimate w = log (alert "Please fill in all required fields.") w
  ∧ pending (calculatePriceEstimate w) = pending w
  ∧ fetches (trace (calculatePriceEstimate w)) = fetches (trace w)
  ∧ alerts (trace (calculatePriceEstimate w))
    = alerts (trace w) ++ ["Please fill in all required fields."].
Proof.
  intros H.
  assert (Heq : calculatePriceEstimate w
                = log (alert "Please fill in all required fields.") w).
  { unfold calculatePriceEstimate.
    destruct H as [H|[H|H]].
    - rewrite H. done.
    - rewrite H. cbn. by rewrite orb_true_r.
    - apply not_strictly_positive in H. rewrite <- orb_assoc, H.
      by rewrite orb_true_r. }
  rewrite Heq. split_and!; try done.
  - unfold fetches. cbn. by rewrite omap_app, app_nil_r.
  - unfold alerts. cbn. by rewrite omap_app.
Qed.

Lemma calculatePriceEstimate_blocks_invalid_form_witness :
  let w := page_loaded (set_est_area "0" example_inputs) true in
  (est_property_type (inputs w) = ""
   ∨ est_location (inputs w) = ""
   ∨ ¬ strictly_positive (parseFloat (est_area (inputs w))))
  ∧ fetches (trace (calculatePriceEstimate w)) = fetches (trace w).
Proof.
  intros w.
  assert (H : est_property_type (inputs w) = ""
              ∨ est_location (inputs w) = ""
              ∨ ¬ strictly_positive (parseFloat (est_area (inputs w)))).
  { right; right. vm_compute. intros H. discriminate H. }
  split; [exact H|].
  exact (proj1 (proj2 (proj2 (calculatePriceEstimate_blocks_invalid_form w H)))).
Defined.

Lemma strictly_positive_passes (n : number) :
  strictly_positive n → isNaN n || le_zero n = false.
Proof.
  destruct n as [|[]|q]; cbn; try done.
  intros H. apply bool_decide_eq_false. by apply Qclt_not_le.
Qed.

Lemma calculatePriceEstimate_valid (w : World) :
  valid_estimate_form (inputs w) →
  calculatePriceEstimate w
  = request (POST_estimate_price (JSON_stringify_estimateData (estimateData (inputs w)))) w.
Proof.
  intros (Htype & Hloc & Harea). unfold calculatePriceEstimate, truthy.
  rewrite !bool_decide_eq_false_2 by done.
  apply strictly_positive_passes in Harea. rewrite <- orb_assoc, Harea. done.
Qed.

(** C10, as stated, fails: with the bedrooms field empty and the validated
    fields filled in, [estimateData.bedrooms] is [NaN] and the request is
    sent, but the body has [null] for [bedrooms], not the number [NaN]. *)
Lemma estimate_body_has_null_for_NaN :
  valid_estimate_form (inputs estimate_world)
  ∧ parseInt (est_bedrooms (inputs estimate_world)) = NaN
  ∧ ∃ body,
      pending (calculatePriceEstimate estimate_world)
      = pending estimate_world ++ [POST_estimate_price body]
      ∧ member "bedrooms" body = Some JNull
      ∧ ¬ body_has_number "bedrooms" NaN body.
Proof.
  split_and!.
  - split_and!; [discriminate | discriminate | by vm_compute].
  - by vm_compute.
  - eexists. split_and!.
    + rewrite calculatePriceEstimate_valid; [reflexivity|].
      split_and!; [discriminate | discriminate | by vm_compute].
    + by vm_compute.
    + intros (j & Hj & Hn). vm_compute in Hj. injection Hj as <-. discriminate Hn.
Qed.

(** C10, amended.  [calculatePriceEstimate] validates the property type, the
    location and the area only.  When these pass, the request is issued
    whatever the bedrooms, bathrooms and age fields hold: each is put in
    [estimateData] as [parseInt] reads it, which is [NaN] for an empty field,
    and [JSON.stringify] writes each [NaN] as [null] in the body. *)
Theorem calculatePriceEstimate_sends_unvalidated_counts (w : World) :
  valid_estimate_form (inputs w) →
  let data := estimateData (inputs w) in
  let body := JSON_stringify_estimateData data in
  calculatePriceEstimate w = request (POST_estimate_price body) w
  ∧ pending (calculatePriceEstimate w) = pending w ++ [POST_estimate_price body]
  ∧ fetches (trace (calculatePriceEstimate w))
    = fetches (trace w) ++ [POST_estimate_price body]
  ∧ EstimateData.bedrooms data = parseInt (est_bedrooms (inputs w))
  ∧ EstimateData.bathrooms data = parseInt (est_bathrooms (inputs w))
  ∧ EstimateData.age data = parseInt (est_age (inputs w))
  ∧ member "bedrooms" body = Some (json_of_number (parseInt (est_bedrooms (inputs w))))
  ∧ member "bathrooms" body = Some (json_of_number (parseInt (est_bathrooms (inputs w))))
  ∧ member "age" body = Some (json_of_number (parseInt (est_age (inputs w))))
  ∧ json_of_number NaN = JNull
  ∧ parseInt "" = NaN.
Proof.
  intros Hvalid data body. rewrite calculatePriceEstimate_valid by done.
  split_and!; try done.
  unfold fetches. cbn. by rewrite omap_app.
Qed.

Lemma calculatePriceEstimate_sends_unvalidated_counts_witness :
  valid_estimate_form (inputs estimate_world)
  ∧ member "bathrooms" (JSON_stringify_estimateData (estimateData (inputs estimate_world)))
    = Some (json_of_number (parseInt (est_bathrooms (inputs estimate_world)))).
Proof.
  assert (H : valid_estimate_form (inputs estimate_world)).
  { split_and!; [discriminate | discriminate | by vm_compute]. }
  split; [exact H|].
  pose proof (calculatePriceEstimate_sends_unvalidated_counts estimate_world H)
    as (_ & _ & _ & _ & _ & _ & _ & Hb & _).
  exact Hb.
Defined.

(** ** Geocoding replies *)

(** C6.  For a geocode reply whose [success] is false, the handler of
    [searchLocation] shows the [error] of the reply when there is one and it
    is not empty, and [Location not found] otherwise, and does nothing else;
    for [{success: false, error: "Not found"}] the message is [Not found]. *)
Theorem geocode_failure_shows_error_or_fallback
    (data : Geocode.t) (locationQuery : string) (w : World) :
  Geocode.success data = false →
  settle (GET_geocode locationQuery) (geocode_json data) w = Some (geocode_then data w)
  ∧ (∀ error, Geocode.error data = Some error → error ≠ "" →
       geocode_then data w = log (alert error) w)
  ∧ (Geocode.error data = None ∨ Geocode.error data = Some "" →
       geocode_then data w = log (alert "Location not found") w)
  ∧ geocode_then (not_found (Some "Not found")) w = log (alert "Not found") w
  ∧ geocode_then (not_found None) w = log (alert "Location not found") w.
Proof.
  intros Hfail. split_and!.
  - done.
  - intros error Herr Hne. unfold geocode_then. rewrite Hfail, Herr.
    unfold truthy. by rewrite bool_decide_eq_false_2.
  - unfold geocode_then. rewrite Hfail. by intros [-> | ->].
  - done.
  - done.
Qed.

Lemma geocode_failure_shows_error_or_fallback_witness :
  Geocode.success (not_found (Some "Not found")) = false
  ∧ alerts (trace (geocode_then (not_found (Some "Not found"))
                                (page_loaded example_inputs true)))
    = ["Not found"].
Proof.
  split; [reflexivity|].
  pose proof (geocode_failure_shows_error_or_fallback
                (not_found (Some "Not found")) "Windhoek"
                (page_loaded example_inputs true) eq_refl) as (_ & H & _).
  rewrite (H "Not found" eq_refl); [reflexivity | discriminate].
Defined.

(** ** Route replies *)

(** [Math.round] gives the integer nearest to its argument. *)
Lemma Math_round_nearest (x : Qc) :
  (inject_Z (Math_round x) - (1 # 2) <= x)%Q
  ∧ (x < inject_Z (Math_round x) + (1 # 2))%Q.
Proof.
  unfold Math_round.
  assert (Heq : ((x + Q2Qc (1 # 2))%Qc == x + (1 # 2))%Q).
  { unfold Qcplus, Q2Qc. cbn [this]. rewrite !Qred_correct. reflexivity. }
  rewrite (Qfloor_comp _ _ Heq).
  pose proof (Qfloor_le (x + (1 # 2))) as Hle.
  pose proof (Qlt_floor (x + (1 # 2))) as Hlt.
  rewrite inject_Z_plus in Hlt. change (inject_Z 1) with 1%Q in Hlt.
  clear Heq. generalize dependent (inject_Z (Qfloor (x + (1 # 2)))).
  generalize (this x). intros y r Hle Hlt. split; lra.
Qed.

Lemma route_points_length (routeData : Route.t) :
  length (route_points routeData) = (length (Route.waypoints routeData) + 2)%nat.
Proof. unfold route_points. cbn. rewrite length_app. cbn. lia. Qed.

Lemma route_anchor_exists (routeData : Route.t) :
  is_Some (route_points routeData !! Math_floor_half (length (route_points routeData))).
Proof.
  apply lookup_lt_is_Some. rewrite route_points_length. unfold Math_floor_half.
  apply Nat.div_lt; lia.
Qed.

(** The world a successful route reply leaves. *)
Lemma route_then_success (routeData : Route.t) (w : World) (anchor : LatLng) :
  Route.success routeData = true →
  route_points routeData !! Math_floor_half (length (route_points routeData)) = Some anchor →
  route_then routeData w
  = set_map_popup
      (Some (anchor, route_message (Route.distance routeData)
                                   (Math_round (Route.duration routeData))))
      (set_map_view (fitBounds (route_points routeData) (50, 50))
         (set_currentRouteLayer (Some (length (heap w)))
            (addTo (length (heap w))
               (set_heap (heap w ++ [L_polyline (route_points routeData) "#0d6efd" 5
                                                (Q2Qc (7 # 10))]) w)))).
Proof.
  intros Hok Hanchor. unfold route_then. rewrite Hok.
  fold (route_points routeData). unfold L_new. by rewrite Hanchor.
Qed.

(** C5.  For a route reply whose [success] is true, the line drawn is the
    start point, the waypoints in the order received and the end point, so it
    has two points more than there are waypoints; the popup is put at the
    point of index [floor(n / 2)] of these [n] points and shows the distance
    and the duration rounded to the nearest whole minute.  With two waypoints
    the line has four points and the popup is at index 2, the second
    waypoint. *)
Theorem route_line_and_summary_popup
    (routeData : Route.t) (start_lat start_lng end_lat end_lng : Qc) (w : World) :
  Route.success routeData = true →
  let points :=
    Route.start routeData :: Route.waypoints routeData ++ [Route.end_ routeData] in
  let w' := route_then routeData w in
  settle (GET_route start_lat start_lng end_lat end_lng) (route_json routeData) w = Some w'
  ∧ heap w' !! length (heap w) = Some (L_polyline points "#0d6efd" 5 (Q2Qc (7 # 10)))
  ∧ currentRouteLayer w' = Some (length (heap w))
  ∧ length (heap w) ∈ map_layers w'
  ∧ length points = (length (Route.waypoints routeData) + 2)%nat
  ∧ map_view w' = fitBounds points (50, 50)
  ∧ (∃ anchor,
       points !! (length points `div` 2)%nat = Some anchor
       ∧ map_popup w'
         = Some (anchor, route_message (Route.distance routeData)
                                       (Math_round (Route.duration routeData))))
  ∧ (inject_Z (Math_round (Route.duration routeData)) - (1 # 2)
       <= Route.duration routeData)%Q
  ∧ (Route.duration routeData
       < inject_Z (Math_round (Route.duration routeData)) + (1 # 2))%Q
  ∧ (length (Route.waypoints routeData) = 2%nat →
       length points = 4%nat
       ∧ (length points `div` 2 = 2)%nat
       ∧ points !! 2%nat = Route.waypoints routeData !! 1%nat).
Proof.
  intros Hok points w'. subst w'. fold (route_points routeData) in points.
  destruct (route_anchor_exists routeData) as [anchor Hanchor].
  rewrite (route_then_success _ _ _ Hok Hanchor).
  pose proof (route_points_length routeData) as Hlen.
  split_and!.
  - cbn. by rewrite (route_then_success _ _ _ Hok Hanchor).
  - unfold addTo. cbn -[hasLayer]. destruct (hasLayer _ _); cbn;
      by apply list_lookup_middle.
  - done.
  - unfold addTo. cbn -[hasLayer]. destruct (hasLayer _ _) eqn:Hhas; cbn.
    + unfold hasLayer in Hhas. cbn in Hhas. by apply bool_decide_eq_true in Hhas.
    + apply elem_of_app. right. by apply list_elem_of_singleton.
  - done.
  - done.
  - by exists anchor.
  - apply Math_round_nearest.
  - apply Math_round_nearest.
  - intros H2. subst points. rewrite Hlen, H2. split_and!; try done.
    unfold route_points. destruct (Route.waypoints routeData) as [|a [|b [|c l]]]; done.
Qed.

Lemma route_line_and_summary_popup_witness :
  let w := page_loaded example_inputs true in
  Route.success example_route = true
  ∧ heap (route_then example_route w) !! 0%nat
    = Some (L_polyline [(Qc_of_Z 0, Qc_of_Z 0); (Qc_of_Z 1, Qc_of_Z 1);
                        (Qc_of_Z 2, Qc_of_Z 2); (Qc_of_Z 3, Qc_of_Z 3)]
                       "#0d6efd" 5 (Q2Qc (7 # 10))).
Proof.
  intros w. split; [reflexivity|].
  exact (proj1 (proj2 (route_line_and_summary_popup
                         example_route 0%Qc 0%Qc 0%Qc 0%Qc w eq_refl))).
Defined.

(** ** Route requests that fail *)

Lemma showRoute_current (layer : nat) (a b c d : Qc) (w : World) :
  currentRouteLayer w = Some layer →
  showRoute a b c d w
  = request (GET_route a b c d) (removeLayer layer w).
Proof. intros H. unfold showRoute. by rewrite H. Qed.

Lemma not_elem_of_filter_ne (layer : nat) (ls : list nat) :
  layer ∉ filter (λ i, i ≠ layer) ls.
Proof. rewrite list_elem_of_filter. tauto. Qed.

Lemma filter_ne_absent (layer : nat) (ls : list nat) :
  layer ∉ ls → filter (λ i, i ≠ layer) ls = ls.
Proof.
  induction ls as [|x ls IH]; [done|].
  rewrite not_elem_of_cons. intros [Hne Hls].
  rewrite filter_cons, decide_True by done. by rewrite IH.
Qed.

Lemma showRoute_trace (a b c d : Qc) (w : World) :
  trace (showRoute a b c d w)
  = trace w
    ++ match currentRouteLayer w with
       | Some layer => [map_removeLayer layer]
       | None => []
       end
    ++ [issued (GET_route a b c d)].
Proof.
  unfold showRoute. destruct (currentRouteLayer w); cbn; [|done].
  by rewrite <- app_assoc.
Qed.

(** C9.  [showRoute] removes the layer [currentRouteLayer] refers to and
    leaves the variable as it is.  When the request then fails, or its reply
    has [success] false, the variable still refers to the layer, which is no
    longer on the map, and the next [showRoute] calls [removeLayer] on that
    layer again before it issues its request. *)
Theorem showRoute_keeps_reference_to_removed_layer
    (w : World) (layer : nat) (a b c d a' b' c' d' : Qc)
    (error : string) (routeData : Route.t) :
  currentRouteLayer w = Some layer →
  Route.success routeData = false →
  let w1 := showRoute a b c d w in
  let after_catch := route_catch error w1 in
  let after_then := route_then routeData w1 in
  (currentRouteLayer w1 = Some layer
   ∧ (layer ∉ map_layers w1)
   ∧ trace w1 = trace w ++ [map_removeLayer layer; issued (GET_route a b c d)])
  ∧ (currentRouteLayer after_catch = Some layer
     ∧ (layer ∉ map_layers after_catch)
     ∧ trace (showRoute a' b' c' d' after_catch)
       = trace after_catch ++ [map_removeLayer layer; issued (GET_route a' b' c' d')]
     ∧ map_layers (showRoute a' b' c' d' after_catch) = map_layers after_catch)
  ∧ (currentRouteLayer after_then = Some layer
     ∧ (layer ∉ map_layers after_then)
     ∧ trace (showRoute a' b' c' d' after_then)
       = trace after_then ++ [map_removeLayer layer; issued (GET_route a' b' c' d')]
     ∧ map_layers (showRoute a' b' c' d' after_then) = map_layers after_then).
Proof.
  intros Hcur Hfail w1 after_catch after_then.
  assert (Hthen : after_then = w1).
  { subst after_then. unfold route_then. by rewrite Hfail. }
  rewrite Hthen. clear Hthen after_then.
  assert (H1 : currentRouteLayer w1 = Some layer).
  { subst w1. by rewrite (showRoute_current layer). }
  assert (H2 : layer ∉ map_layers w1).
  { subst w1. rewrite (showRoute_current layer) by done. cbn.
    apply not_elem_of_filter_ne. }
  split_and!; try done.
  - subst w1. rewrite (showRoute_current layer) by done. cbn.
    by rewrite <- app_assoc.
  - rewrite (showRoute_current layer) by done. cbn. by rewrite <- app_assoc.
  - rewrite (showRoute_current layer) by done. cbn. by apply filter_ne_absent.
  - rewrite (showRoute_current layer) by done. cbn. by rewrite <- app_assoc.
  - rewrite (showRoute_current layer) by done. cbn. by apply filter_ne_absent.
Qed.

Lemma showRoute_keeps_reference_to_removed_layer_witness :
  currentRouteLayer world_with_route = Some 0%nat
  ∧ Route.success failed_route = false
  ∧ currentRouteLayer
      (route_catch "Failed to fetch"
         (showRoute (Qc_of_Z 1) (Qc_of_Z 1) (Qc_of_Z 2) (Qc_of_Z 2) world_with_route))
    = Some 0%nat.
Proof.
  split; [reflexivity|]. split; [reflexivity|].
  exact (proj1 (proj1 (proj2
           (showRoute_keeps_reference_to_removed_layer
              world_with_route 0%nat
              (Qc_of_Z 1) (Qc_of_Z 1) (Qc_of_Z 2) (Qc_of_Z 2)
              (Qc_of_Z 1) (Qc_of_Z 1) (Qc_of_Z 3) (Qc_of_Z 3)
              "Failed to fetch" failed_route eq_refl eq_refl)))).
Defined.

(** C7, as stated, fails: on a page that displays a route, a click on the
    route button whose request then fails leaves a map without that route. *)
Lemma failed_route_request_changes_display :
  routes_on_map <$> run (page_loaded example_inputs true) route_shown = Some [2%nat]
  ∧ routes_on_map
      <$> run (page_loaded example_inputs true)
              (route_shown ++ [click_route_btn; deliver 0 (rejected "Failed to fetch")])
    = Some []
  ∧ map_display
      <$> run (page_loaded example_inputs true)
              (route_shown ++ [click_route_btn; deliver 0 (rejected "Failed to fetch")])
    ≠ map_display <$> run (page_loaded example_inputs true) route_shown.
Proof. split_and!; [by vm_compute | by vm_compute | vm_compute; discriminate]. Qed.

(** C7, amended.  When the request of [showRoute] fails, the handler logs the
    error to the console, shows no message and changes nothing on the map:
    the map is as [showRoute] left it when it issued the request, that is,
    the map from before the call without the layer [currentRouteLayer]
    referred to; view, popup and layer contents are those from before the
    call.  When no route layer was referred to, the map is the same as before
    the call.  A reply with [success] false runs no code at all. *)
Theorem failed_route_request_leaves_map_as_issued
    (w : World) (a b c d : Qc) (error : string) (routeData : Route.t) :
  let w1 := showRoute a b c d w in
  let w2 := route_catch error w1 in
  settle (GET_route a b c d) (rejected error) w1 = Some w2
  ∧ map_display w2 = map_display w1
  ∧ trace w2 = trace w1 ++ [console_error "Error calculating route:" error]
  ∧ alerts (trace w2) = alerts (trace w)
  ∧ heap w2 = heap w
  ∧ map_view w2 = map_view w
  ∧ map_popup w2 = map_popup w
  ∧ match currentRouteLayer w with
    | Some layer => map_layers w2 = filter (λ i, i ≠ layer) (map_layers w)
    | None => map_display w2 = map_display w
    end
  ∧ (if Route.success routeData then True else route_then routeData w1 = w1).
Proof.
  intros w1 w2. subst w2 w1. unfold showRoute.
  destruct (currentRouteLayer w) as [layer|] eqn:Hcur.
  - split_and!; try done.
    + unfold alerts. cbn. rewrite <- !app_assoc, !omap_app. cbn. by rewrite !app_nil_r.
    + unfold route_then. by destruct (Route.success routeData).
  - split_and!; try done.
    + unfold alerts. cbn. rewrite <- !app_assoc, !omap_app. cbn. by rewrite !app_nil_r.
    + unfold route_then. by destruct (Route.success routeData).
Qed.

(** ** What an event can do to the layers *)

Lemma unchanged_refl (w : World) : unchanged w w.
Proof. by repeat split. Qed.

Lemma unchanged_trans (w1 w2 w3 : World) :
  unchanged w1 w2 → unchanged w2 w3 → unchanged w1 w3.
Proof.
  intros (Ha & Hb & Hc & Hd & He & Hf) (Ha' & Hb' & Hc' & Hd' & He' & Hf').
  split_and!; try congruence; intros i; by rewrite Hb', Hb.
Qed.

Lemma route_requests_request (r : Request) (w : World) :
  route_requests (request r w)
  = route_requests w ++ (if is_route_request r then [r] else []).
Proof.
  unfold route_requests, request. cbn. rewrite filter_app, filter_cons, filter_nil.
  by destruct (is_route_request r).
Qed.

Lemma unchanged_log (e : Effect) (w : World) : unchanged w (log e w).
Proof. by repeat split. Qed.

Lemma unchanged_request (r : Request) (w : World) :
  is_route_request r = false → unchanged w (request r w).
Proof.
  intros Hr. split_and!; try done.
  rewrite route_requests_request, Hr. apply app_nil_r.
Qed.

Lemma unchanged_set_map_popup (p : option (LatLng * Content)) (w : World) :
  unchanged w (set_map_popup p w).
Proof. by repeat split. Qed.

Lemma unchanged_set_map_view (v : View) (w : World) : unchanged w (set_map_view v w).
Proof. by repeat split. Qed.

Lemma unchanged_openPopup (stamp : nat) (w : World) : unchanged w (openPopup stamp w).
Proof.
  unfold openPopup. destruct (heap w !! stamp) as [[latlng icon [content|]|]|];
    try apply unchanged_refl.
  destruct (hasLayer stamp w); [apply unchanged_set_map_popup | apply unchanged_refl].
Qed.

Lemma unchanged_setLatLng (stamp : nat) (latlng : LatLng) (w : World) :
  unchanged w (setLatLng stamp latlng w).
Proof.
  unfold setLatLng. destruct (heap w !! stamp) as [[old icon popup|]|] eqn:Hs;
    try apply unchanged_refl.
  split_and!; try done.
  - cbn. apply length_insert.
  - intros i. unfold layer_is_route. cbn.
    destruct (decide (i = stamp)) as [->|Hne].
    + rewrite list_lookup_insert_eq by (by eapply lookup_lt_Some). by rewrite Hs.
    + by rewrite list_lookup_insert_ne.
Qed.

Lemma unchanged_getUserLocation (callback : option LatLng) (w : World) :
  unchanged w (getUserLocation callback w).
Proof.
  unfold getUserLocation. destruct (navigator_geolocation w).
  - by apply unchanged_request.
  - apply unchanged_log.
Qed.

Lemma unchanged_searchLocation (locationQuery : option string) (w : World) :
  unchanged w (searchLocation locationQuery w).
Proof.
  unfold searchLocation. destruct (truthy _).
  - by apply unchanged_request.
  - apply unchanged_refl.
Qed.

Lemma unchanged_searchProperties (w : World) : unchanged w (searchProperties w).
Proof. unfold searchProperties. by apply unchanged_request. Qed.

Lemma unchanged_calculatePriceEstimate (w : World) :
  unchanged w (calculatePriceEstimate w).
Proof.
  unfold calculatePriceEstimate. destruct (_ || _).
  - apply unchanged_log.
  - by apply unchanged_request.
Qed.

Lemma unchanged_card_click (c : Card) (w : World) : unchanged w (card_click c w).
Proof.
  unfold card_click.
  eapply unchanged_trans; [apply (unchanged_set_map_view (setView (card_latlng c) 16))|].
  generalize (propertyMarkers (set_map_view (setView (card_latlng c) 16) w)).
  generalize (set_map_view (setView (card_latlng c) 16) w).
  intros w0 ms. revert w0. induction ms as [|m ms IH]; intros w0.
  - apply unchanged_refl.
  - cbn [foldl]. eapply unchanged_trans; [|apply IH].
    case_bool_decide; [apply unchanged_openPopup | apply unchanged_refl].
Qed.

Lemma unchanged_set_userLocationMarker (x : option nat) (w : World) :
  unchanged w (set_userLocationMarker x w).
Proof. by repeat split. Qed.

Lemma unchanged_set_inputs (i : Inputs) (w : World) : unchanged w (set_inputs i w).
Proof. by repeat split. Qed.

Lemma unchanged_estimate_then (estimated_price : Z) (w : World) :
  unchanged w (estimate_then estimated_price w).
Proof. by repeat split. Qed.

Lemma add_layer_heap (l : Layer) (w : World) :
  heap (add_layer l w) = heap w ++ [l].
Proof. unfold add_layer, addTo. cbn -[hasLayer]. by destruct (hasLayer _ _). Qed.

Lemma add_layer_map_layers (l : Layer) (w : World) :
  map_layers (add_layer l w)
  = if bool_decide (length (heap w) ∈ map_layers w) then map_layers w
    else map_layers w ++ [length (heap w)].
Proof.
  unfold add_layer, addTo, hasLayer. cbn. by destruct (bool_decide _).
Qed.

Lemma add_layer_propertyMarkers (l : Layer) (w : World) :
  propertyMarkers (add_layer l w) = propertyMarkers w.
Proof. unfold add_layer, addTo. cbn -[hasLayer]. by destruct (hasLayer _ _). Qed.

Lemma add_layer_currentRouteLayer (l : Layer) (w : World) :
  currentRouteLayer (add_layer l w) = currentRouteLayer w.
Proof. unfold add_layer, addTo. cbn -[hasLayer]. by destruct (hasLayer _ _). Qed.

Lemma add_layer_pending (l : Layer) (w : World) :
  pending (add_layer l w) = pending w.
Proof. unfold add_layer, addTo. cbn -[hasLayer]. by destruct (hasLayer _ _). Qed.

Lemma add_layer_userLocationMarker (l : Layer) (w : World) :
  userLocationMarker (add_layer l w) = userLocationMarker w.
Proof. unfold add_layer, addTo. cbn -[hasLayer]. by destruct (hasLayer _ _). Qed.

Lemma elem_of_add_layer (i : nat) (l : Layer) (w : World) :
  i ∈ map_layers (add_layer l w) ↔ i ∈ map_layers w ∨ i = length (heap w).
Proof.
  rewrite add_layer_map_layers. case_bool_decide as Hin.
  - split; [tauto|]. intros [?| ->]; done.
  - by rewrite elem_of_app, list_elem_of_singleton.
Qed.

Lemma NoDup_add_layer (l : Layer) (w : World) :
  NoDup (map_layers w) → NoDup (map_layers (add_layer l w)).
Proof.
  intros Hnd. rewrite add_layer_map_layers. case_bool_decide as Hin; [done|].
  apply NoDup_app. split_and!; [done| |apply NoDup_singleton].
  intros x Hx ->%list_elem_of_singleton. done.
Qed.

Lemma layer_is_route_add_layer (i : nat) (l : Layer) (w : World) :
  layer_is_route (add_layer l w) i
  = if bool_decide (i = length (heap w)) then is_polyline l else layer_is_route w i.
Proof.
  unfold layer_is_route. rewrite add_layer_heap. case_bool_decide as Hi.
  - subst i. by rewrite list_lookup_middle.
  - destruct (decide (i < length (heap w))%nat) as [Hlt|Hge].
    + by rewrite lookup_app_l.
    + rewrite !lookup_ge_None_2; [done|lia|]. rewrite length_app. cbn. lia.
Qed.

(** The handlers, in terms of [add_layer]. *)
Lemma geocode_then_success (data : Geocode.t) (w : World) :
  Geocode.success data = true →
  geocode_then data w
  = openPopup (length (heap w))
      (add_layer (L_marker (Geocode.lat data, Geocode.lng data) None
                           (Some (text_content (Geocode.formatted_address data))))
                 (set_map_view (setView (Geocode.lat data, Geocode.lng data) 14) w)).
Proof. intros Hok. unfold geocode_then. by rewrite Hok. Qed.

Lemma geocode_then_failure (data : Geocode.t) (w : World) :
  Geocode.success data = false → ∃ message, geocode_then data w = log (alert message) w.
Proof. intros Hfail. unfold geocode_then. rewrite Hfail. by eexists. Qed.

Lemma route_then_add_layer (routeData : Route.t) (w : World) :
  Route.success routeData = true →
  ∃ anchor,
    route_then routeData w
    = set_map_popup
        (Some (anchor, route_message (Route.distance routeData)
                                     (Math_round (Route.duration routeData))))
        (set_map_view (fitBounds (route_points routeData) (50, 50))
           (set_currentRouteLayer (Some (length (heap w)))
              (add_layer (L_polyline (route_points routeData) "#0d6efd" 5 (Q2Qc (7 # 10)))
                         w))).
Proof.
  intros Hok. destruct (route_anchor_exists routeData) as [anchor Hanchor].
  exists anchor. by apply route_then_success.
Qed.

Lemma route_then_failure (routeData : Route.t) (w : World) :
  Route.success routeData = false → route_then routeData w = w.
Proof. intros Hfail. unfold route_then. by rewrite Hfail. Qed.

Lemma position_then_eq (callback : option LatLng) (lat lng : Qc) (w : World) :
  position_then callback lat lng w
  = match callback with
    | Some (endLat, endLng) => showRoute lat lng endLat endLng (place_user lat lng w)
    | None => place_user lat lng w
    end.
Proof.
  unfold position_then, place_user. by destruct (userLocationMarker w).
Qed.

(** ** Properties kept by every event *)

Lemma place_user_preserves (Q : World → Prop) :
  (∀ w w', unchanged w w' → Q w → Q w') →
  (∀ latlng icon popup w, Q w → Q (add_layer (L_marker latlng icon popup) w)) →
  ∀ lat lng w, Q w → Q (place_user lat lng w).
Proof.
  intros Hunch Hmarker lat lng w HQ. unfold place_user.
  eapply Hunch; [apply unchanged_set_map_view|].
  destruct (userLocationMarker w) as [m|].
  - eapply Hunch; [apply unchanged_setLatLng | done].
  - eapply Hunch; [apply unchanged_set_userLocationMarker|]. by apply Hmarker.
Qed.

Lemma geocode_then_preserves (Q : World → Prop) :
  (∀ w w', unchanged w w' → Q w → Q w') →
  (∀ latlng icon popup w, Q w → Q (add_layer (L_marker latlng icon popup) w)) →
  ∀ data w, Q w → Q (geocode_then data w).
Proof.
  intros Hunch Hmarker data w HQ. destruct (Geocode.success data) eqn:Hok.
  - rewrite geocode_then_success by done.
    eapply Hunch; [apply unchanged_openPopup|]. apply Hmarker.
    eapply Hunch; [apply unchanged_set_map_view | done].
  - destruct (geocode_then_failure data w Hok) as [message ->].
    eapply Hunch; [apply unchanged_log | done].
Qed.

Section Preservation.

(** [P] is the property, [guard] what holds whenever [showRoute] is called. *)
Variables P guard : World → Prop.

Hypothesis P_unchanged : ∀ w w', unchanged w w' → P w → P w'.
Hypothesis guard_unchanged : ∀ w w', unchanged w w' → guard w → guard w'.
Hypothesis P_marker :
  ∀ latlng icon popup w, P w → P (add_layer (L_marker latlng icon popup) w).
Hypothesis guard_marker :
  ∀ latlng icon popup w, guard w → guard (add_layer (L_marker latlng icon popup) w).
Hypothesis P_display : ∀ properties w, P w → P (displayProperties properties w).
Hypothesis P_showRoute : ∀ a b c d w, guard w → P w → P (showRoute a b c d w).
Hypothesis P_drop :
  ∀ n r w, pending w !! n = Some r → P w → P (set_pending (delete n (pending w)) w).
Hypothesis guard_drop :
  ∀ n r w, pending w !! n = Some r → guard w →
           guard (set_pending (delete n (pending w)) w).
Hypothesis P_route :
  ∀ n a b c d points color weight opacity w,
    pending w !! n = Some (GET_route a b c d) → P w →
    P (set_currentRouteLayer (Some (length (heap w)))
         (add_layer (L_polyline points color weight opacity)
                    (set_pending (delete n (pending w)) w))).

Lemma settle_preserves (n : nat) (r : Request) (reply : Reply) (w w' : World) :
  pending w !! n = Some r →
  settle r reply (set_pending (delete n (pending w)) w) = Some w' →
  (calls_showRoute w (deliver n reply) = true → guard w) →
  P w → P w'.
Proof.
  intros Hn Hsettle Hguard HP.
  pose proof (P_drop n r w Hn HP) as HP0.
  destruct r as [|body location|location|a b c d|body|callback], reply; cbn in Hsettle;
    try discriminate; injection Hsettle as <-.
  - eapply P_unchanged; [apply unchanged_log | done].
  - by apply P_display.
  - eapply P_unchanged; [apply unchanged_log | done].
  - unfold search_then. destruct (truthy location).
    + eapply P_unchanged; [apply unchanged_searchLocation|]. by apply P_display.
    + by apply P_display.
  - eapply P_unchanged; [apply unchanged_log | done].
  - by apply geocode_then_preserves.
  - eapply P_unchanged; [apply unchanged_log | done].
  - destruct (Route.success routeData) eqn:Hok.
    + destruct (route_then_add_layer routeData
                  (set_pending (delete n (pending w)) w) Hok) as [anchor ->].
      eapply P_unchanged; [apply unchanged_set_map_popup|].
      eapply P_unchanged; [apply unchanged_set_map_view|].
      by apply (P_route n a b c d _ _ _ _ w).
    + by rewrite route_then_failure.
  - unfold estimate_catch.
    eapply P_unchanged; [apply unchanged_log|].
    eapply P_unchanged; [apply unchanged_log | done].
  - eapply P_unchanged; [apply unchanged_estimate_then | done].
  - rewrite position_then_eq. destruct callback as [[endLat endLng]|].
    + apply P_showRoute.
      * apply (place_user_preserves guard); [done..|].
        eapply guard_drop; [done|]. apply Hguard. cbn. by rewrite Hn.
      * by apply (place_user_preserves P).
    + by apply (place_user_preserves P).
  - unfold position_catch.
    eapply P_unchanged; [apply unchanged_log|].
    eapply P_unchanged; [apply unchanged_log | done].
Qed.

Lemma step_preserves (w w' : World) (e : Event) :
  step w e = Some w' →
  (calls_showRoute w e = true → guard w) →
  P w → P w'.
Proof.
  intros Hstep Hguard HP. destruct e; cbn in Hstep.
  - injection Hstep as <-. eapply P_unchanged; [apply unchanged_set_inputs | done].
  - injection Hstep as <-. eapply P_unchanged; [apply unchanged_getUserLocation | done].
  - injection Hstep as <-.
    eapply P_unchanged; [apply unchanged_calculatePriceEstimate | done].
  - injection Hstep as <-. eapply P_unchanged; [apply unchanged_searchProperties | done].
  - injection Hstep as <-. eapply P_unchanged; [apply unchanged_searchLocation | done].
  - destruct (heap w !! stamp) as [[latlng icon [content|]|]|]; try discriminate.
    destruct (hasLayer stamp w); [|discriminate]. injection Hstep as <-.
    eapply P_unchanged; [apply unchanged_openPopup | done].
  - destruct (propertyList w !! n) as [c|]; [|discriminate]. injection Hstep as <-.
    eapply P_unchanged; [apply unchanged_card_click | done].
  - destruct (map_popup w) as [[latlng [image price beds baths area address lat lng| |]]|];
      try discriminate.
    injection Hstep as <-. unfold route_btn_click.
    destruct (userLocationMarker w) as [marker|] eqn:Huser.
    + destruct (getLatLng marker w) as [[userLat userLng]|]; [|done].
      apply P_showRoute; [|done]. apply Hguard. cbn. rewrite Huser.
      by apply bool_decide_eq_true.
    + eapply P_unchanged; [apply unchanged_getUserLocation | done].
  - injection Hstep as <-. eapply P_unchanged; [apply unchanged_set_map_popup | done].
  - destruct (pending w !! n) as [r|] eqn:Hn; [|discriminate].
    by eapply settle_preserves.
Qed.

End Preservation.

(** ** Stamps in use are stamps of existing objects *)

Lemma allocated_unchanged (w w' : World) : unchanged w w' → allocated w → allocated w'.
Proof.
  intros (Hlen & _ & Hmap & Hpm & Hcur & _) Ha i. rewrite Hmap, Hpm, Hcur, Hlen. apply Ha.
Qed.

Lemma allocated_add_layer (l : Layer) (w : World) :
  allocated w → allocated (add_layer l w).
Proof.
  intros Ha i. rewrite elem_of_add_layer, add_layer_propertyMarkers,
    add_layer_currentRouteLayer, add_layer_heap, length_app. cbn.
  intros [[Hi| ->]|Hi]; [|lia|]; specialize (Ha i); lia || (apply Nat.lt_lt_add_r; tauto).
Qed.

Lemma allocated_displayProperties (properties : list Property.t) (w : World) :
  allocated w → allocated (displayProperties properties w).
Proof.
  intros Ha i. rewrite displayProperties_eq. cbn.
  rewrite elem_of_add_all, list_elem_of_filter, elem_of_seq, length_app, length_fmap.
  intros [[[_ Hi]|Hi]|[Hi|Hi]]; try lia; apply Nat.lt_lt_add_r, Ha; tauto.
Qed.

Lemma allocated_showRoute (a b c d : Qc) (w : World) :
  allocated w → allocated (showRoute a b c d w).
Proof.
  intros Ha i. unfold showRoute. destruct (currentRouteLayer w) as [layer|] eqn:Hcur; cbn.
  - rewrite list_elem_of_filter, Hcur. intros [[_ Hi]|Hi]; apply Ha; rewrite ?Hcur; tauto.
  - rewrite Hcur. intros Hi. apply Ha. by rewrite Hcur.
Qed.

Lemma allocated_route (n : nat) (l : Layer) (w : World) :
  allocated w →
  allocated (set_currentRouteLayer (Some (length (heap w)))
               (add_layer l (set_pending (delete n (pending w)) w))).
Proof.
  intros Ha i. cbn. rewrite elem_of_add_layer, add_layer_propertyMarkers, add_layer_heap,
    length_app. cbn.
  intros [[Hi| ->]|[Hi|[= <-]]]; try lia; apply Nat.lt_lt_add_r, Ha; tauto.
Qed.

Lemma step_allocated (w w' : World) (e : Event) :
  step w e = Some w' → allocated w → allocated w'.
Proof.
  intros Hstep. apply (step_preserves allocated (λ _, True)) with (e := e); try done.
  - apply allocated_unchanged.
  - intros. by apply allocated_add_layer.
  - apply allocated_displayProperties.
  - intros. by apply allocated_showRoute.
  - intros. by apply allocated_route.
Qed.

Lemma run_allocated (es : list Event) (w w' : World) :
  run w es = Some w' → allocated w → allocated w'.
Proof.
  revert w. induction es as [|e es IH]; intros w Hrun Ha; cbn in Hrun.
  - by injection Hrun as <-.
  - destruct (step w e) as [w1|] eqn:Hstep; [|discriminate].
    eapply IH; [done|]. by eapply step_allocated.
Qed.

Lemma allocated_page_loaded (i : Inputs) (geolocation : bool) :
  allocated (page_loaded i geolocation).
Proof. intros k. cbn. rewrite !elem_of_nil. intros [[]|[[]|[=]]]. Qed.

(** ** Markers that no variable of the script refers to *)

Lemma untracked_unchanged (m : nat) (w w' : World) :
  unchanged w w' → untracked_on_map m w → untracked_on_map m w'.
Proof.
  intros (Hlen & _ & Hmap & Hpm & Hcur & _). unfold untracked_on_map.
  by rewrite Hmap, Hpm, Hcur, Hlen.
Qed.

Lemma untracked_add_layer (m : nat) (l : Layer) (w : World) :
  untracked_on_map m w → untracked_on_map m (add_layer l w).
Proof.
  intros (Hmap & Hpm & Hcur & Hlen). unfold untracked_on_map.
  rewrite elem_of_add_layer, add_layer_propertyMarkers, add_layer_currentRouteLayer,
    add_layer_heap, length_app. cbn. split_and!; [tauto|done|done|lia].
Qed.

Lemma untracked_displayProperties (m : nat) (properties : list Property.t) (w : World) :
  untracked_on_map m w → untracked_on_map m (displayProperties properties w).
Proof.
  intros (Hmap & Hpm & Hcur & Hlen). unfold untracked_on_map.
  rewrite displayProperties_eq. cbn.
  rewrite elem_of_add_all, list_elem_of_filter, elem_of_seq, length_app.
  split_and!; [tauto|lia|done|lia].
Qed.

Lemma untracked_clearPropertyMarkers (m : nat) (w : World) :
  untracked_on_map m w → untracked_on_map m (clearPropertyMarkers w).
Proof.
  intros (Hmap & Hpm & Hcur & Hlen). unfold untracked_on_map, clearPropertyMarkers.
  rewrite clear_loop. cbn. rewrite list_elem_of_filter, elem_of_nil. tauto.
Qed.

Lemma untracked_showRoute (m : nat) (a b c d : Qc) (w : World) :
  untracked_on_map m w → untracked_on_map m (showRoute a b c d w).
Proof.
  intros (Hmap & Hpm & Hcur & Hlen). unfold untracked_on_map, showRoute.
  destruct (currentRouteLayer w) as [layer|] eqn:Hl; cbn; rewrite ?Hl; [|done].
  rewrite list_elem_of_filter. split_and!; try done. congruence.
Qed.

Lemma untracked_route (m n : nat) (l : Layer) (w : World) :
  untracked_on_map m w →
  untracked_on_map m (set_currentRouteLayer (Some (length (heap w)))
                        (add_layer l (set_pending (delete n (pending w)) w))).
Proof.
  intros (Hmap & Hpm & Hcur & Hlen). unfold untracked_on_map. cbn.
  rewrite elem_of_add_layer, add_layer_propertyMarkers, add_layer_heap, length_app. cbn.
  split_and!; [tauto|done| |lia]. intros [= Heq]. lia.
Qed.

Lemma step_untracked (m : nat) (w w' : World) (e : Event) :
  step w e = Some w' → untracked_on_map m w → untracked_on_map m w'.
Proof.
  intros Hstep.
  apply (step_preserves (untracked_on_map m) (λ _, True)) with (e := e); try done.
  - apply untracked_unchanged.
  - intros. by apply untracked_add_layer.
  - apply untracked_displayProperties.
  - intros. by apply untracked_showRoute.
  - intros. by apply untracked_route.
Qed.

Lemma run_untracked (m : nat) (es : list Event) (w w' : World) :
  run w es = Some w' → untracked_on_map m w → untracked_on_map m w'.
Proof.
  revert w. induction es as [|e es IH]; intros w Hrun Hm; cbn in Hrun.
  - by injection Hrun as <-.
  - destruct (step w e) as [w1|] eqn:Hstep; [|discriminate].
    eapply IH; [done|]. by eapply step_untracked.
Qed.

Lemma openPopup_heap (stamp : nat) (w : World) : heap (openPopup stamp w) = heap w.
Proof.
  unfold openPopup. destruct (heap w !! stamp) as [[latlng icon [content|]|]|]; try done.
  by destruct (hasLayer stamp w).
Qed.

(** A successful geocode reply, delivered to a page whose stamps in use are
    all allocated, puts one new marker on the map, which nothing refers to. *)
Lemma geocode_reply_adds_untracked_marker
    (n : nat) (data : Geocode.t) (w w' : World) :
  allocated w →
  Geocode.success data = true →
  step w (deliver n (geocode_json data)) = Some w' →
  heap w' !! length (heap w) = Some (geocode_marker data)
  ∧ (length (heap w) ∉ map_layers w)
  ∧ map_layers w' = map_layers w ++ [length (heap w)]
  ∧ propertyMarkers w' = propertyMarkers w
  ∧ untracked_on_map (length (heap w)) w'.
Proof.
  intros Ha Hok Hstep. cbn in Hstep.
  destruct (pending w !! n) as [r|] eqn:Hn; [|discriminate].
  destruct r; cbn in Hstep; try discriminate. injection Hstep as <-.
  rewrite geocode_then_success by done. fold (geocode_marker data).
  change (heap (set_pending (delete n (pending w)) w)) with (heap w).
  set (w0 := set_map_view _ (set_pending _ w)).
  assert (Hfresh : length (heap w) ∉ map_layers w).
  { intros Hin. pose proof (Ha _ (or_introl Hin)). lia. }
  assert (Hmap : map_layers (openPopup (length (heap w)) (add_layer (geocode_marker data) w0))
                 = map_layers w ++ [length (heap w)]).
  { destruct (unchanged_openPopup (length (heap w)) (add_layer (geocode_marker data) w0))
      as (_ & _ & -> & _).
    rewrite add_layer_map_layers. subst w0. cbn. by rewrite bool_decide_eq_false_2. }
  destruct (unchanged_openPopup (length (heap w)) (add_layer (geocode_marker data) w0))
    as (Hlen & _ & _ & Hpm & Hcur & _).
  split_and!.
  - rewrite openPopup_heap, add_layer_heap. subst w0. cbn. by apply list_lookup_middle.
  - done.
  - done.
  - by rewrite Hpm, add_layer_propertyMarkers.
  - unfold untracked_on_map.
    rewrite Hmap, Hpm, Hcur, Hlen, add_layer_propertyMarkers,
      add_layer_currentRouteLayer, add_layer_heap, length_app.
    subst w0. cbn. split_and!.
    + apply elem_of_app. right. by apply list_elem_of_singleton.
    + intros Hin. pose proof (Ha _ (or_intror (or_introl Hin))). lia.
    + intros Hc. pose proof (Ha _ (or_intror (or_intror Hc))). lia.
    + lia.
Qed.

(** C8.  On a page reached from the loaded page by any events, a successful
    geocode reply makes a marker that is added to the map, one overlay more
    than before, and recorded nowhere: it is not in [propertyMarkers].
    Whatever events follow, the marker stays on the map and out of
    [propertyMarkers], and neither [clearPropertyMarkers] nor
    [displayProperties] removes it. *)
Theorem geocode_markers_accumulate
    (i : Inputs) (geolocation : bool) (before after : list Event)
    (n : nat) (data : Geocode.t) (properties : list Property.t) (w w' w'' : World) :
  run (page_loaded i geolocation) before = Some w →
  Geocode.success data = true →
  step w (deliver n (geocode_json data)) = Some w' →
  run w' after = Some w'' →
  let marker := length (heap w) in
  heap w' !! marker = Some (geocode_marker data)
  ∧ (marker ∉ map_layers w)
  ∧ map_layers w' = map_layers w ++ [marker]
  ∧ (marker ∉ propertyMarkers w')
  ∧ marker ∈ map_layers w''
  ∧ (marker ∉ propertyMarkers w'')
  ∧ marker ∈ map_layers (clearPropertyMarkers w'')
  ∧ marker ∈ map_layers (displayProperties properties w'').
Proof.
  intros Hbefore Hok Hstep Hafter marker.
  assert (Ha : allocated w).
  { eapply run_allocated; [done|]. apply allocated_page_loaded. }
  destruct (geocode_reply_adds_untracked_marker n data w w' Ha Hok Hstep)
    as (Hheap & Hfresh & Hmap & Hpm & Hun).
  pose proof (run_untracked marker after w' w'' Hafter Hun) as Hun''.
  split_and!; try done.
  - apply Hun.
  - apply Hun''.
  - apply Hun''.
  - by apply untracked_clearPropertyMarkers.
  - by apply untracked_displayProperties.
Qed.

Lemma geocode_markers_accumulate_witness :
  ∃ w w' w'',
    run (page_loaded example_inputs true) [click_locationSearchBtn] = Some w
    ∧ step w (deliver 1 (geocode_json found_Windhoek)) = Some w'
    ∧ run w' [deliver 0 (properties_json [example_property]);
              submit_property_search_form;
              deliver 0 (properties_json [])] = Some w''
    ∧ 0%nat ∈ map_layers w''.
Proof.
  eexists _, _, _.
  assert (H1 : run (page_loaded example_inputs true) [click_locationSearchBtn]
               = Some (searchLocation None (page_loaded example_inputs true)))
    by (vm_compute; reflexivity).
  assert (H2 : step (searchLocation None (page_loaded example_inputs true))
                    (deliver 1 (geocode_json found_Windhoek))
               = Some (geocode_then found_Windhoek
                         (set_pending [GET_properties]
                            (searchLocation None (page_loaded example_inputs true)))))
    by (vm_compute; reflexivity).
  assert (H3 : run (geocode_then found_Windhoek
                      (set_pending [GET_properties]
                         (searchLocation None (page_loaded example_inputs true))))
                   [deliver 0 (properties_json [example_property]);
                    submit_property_search_form;
                    deliver 0 (properties_json [])]
               = Some (search_then "Windhoek" []
                         (set_pending []
                            (searchProperties
                               (displayProperties [example_property]
                                  (set_pending []
                                     (geocode_then found_Windhoek
                                        (set_pending [GET_properties]
                                           (searchLocation None
                                              (page_loaded example_inputs true))))))))))
    by (vm_compute; reflexivity).
  split; [exact H1|]. split; [exact H2|]. split; [exact H3|].
  exact (proj1 (proj2 (proj2 (proj2 (proj2
           (geocode_markers_accumulate example_inputs true _ _ 1%nat found_Windhoek []
              _ _ _ H1 eq_refl H2 H3)))))).
Defined.

(** ** Route layers on the map *)

Lemma route_requests_delete (n : nat) (r : Request) (l : list Request) :
  l !! n = Some r →
  length (filter (λ r, is_route_request r = true) l)
  = (length (filter (λ r, is_route_request r = true) (delete n l))
     + if is_route_request r then 1 else 0)%nat.
Proof.
  revert n. induction l as [|x l IH]; intros n Hn; [done|].
  destruct n as [|n]; cbn in Hn.
  - injection Hn as <-. change (delete 0%nat (x :: l)) with l. rewrite filter_cons.
    destruct (decide (is_route_request x = true)) as [Hx|Hx].
    + rewrite Hx. cbn. lia.
    + destruct (is_route_request x); [done|]. lia.
  - change (delete (S n) (x :: l)) with (x :: delete n l).
    rewrite !filter_cons. specialize (IH n Hn).
    destruct (decide (is_route_request x = true)); cbn [length]; lia.
Qed.

Lemma route_invariant_unchanged (w w' : World) :
  unchanged w w' → route_invariant w → route_invariant w'.
Proof.
  intros (_ & Hkind & Hmap & _ & Hcur & Hreq) (Hnd & Hone & Hflight).
  unfold route_invariant, no_route_on_map. rewrite Hmap, Hcur, Hreq.
  split_and!; [done| |].
  - intros i. rewrite Hkind. apply Hone.
  - destruct Hflight as [?|[? Hno]]; [by left|right]. split; [done|].
    intros i. rewrite Hkind. apply Hno.
Qed.

Lemma route_invariant_marker (latlng : LatLng) (icon : option DivIcon)
    (popup : option Content) (w : World) :
  route_invariant w → route_invariant (add_layer (L_marker latlng icon popup) w).
Proof.
  intros (Hnd & Hone & Hflight). unfold route_invariant, no_route_on_map, route_requests.
  rewrite add_layer_currentRouteLayer, add_layer_pending.
  split_and!.
  - by apply NoDup_add_layer.
  - intros i. rewrite elem_of_add_layer, layer_is_route_add_layer.
    case_bool_decide; [done|]. intros [Hi|Hi]; [by apply Hone | done].
  - destruct Hflight as [?|[? Hno]]; [by left|right]. split; [done|].
    intros i. rewrite elem_of_add_layer, layer_is_route_add_layer.
    case_bool_decide; [done|]. intros [Hi|Hi]; [by apply Hno | done].
Qed.

Lemma layer_is_route_displayProperties (i : nat) (properties : list Property.t) (w : World) :
  layer_is_route (displayProperties properties w) i = true → layer_is_route w i = true.
Proof.
  rewrite displayProperties_eq. unfold layer_is_route. cbn.
  destruct (decide (i < length (heap w))%nat) as [Hlt|Hge].
  - by rewrite lookup_app_l.
  - rewrite lookup_app_r by lia. rewrite list_lookup_fmap.
    by destruct (properties !! _).
Qed.

Lemma route_invariant_displayProperties (properties : list Property.t) (w : World) :
  route_invariant w → route_invariant (displayProperties properties w).
Proof.
  intros (Hnd & Hone & Hflight).
  assert (Hin : ∀ i, i ∈ map_layers (displayProperties properties w) →
                     layer_is_route (displayProperties properties w) i = true →
                     i ∈ map_layers w).
  { intros i Hi Hr. apply layer_is_route_displayProperties in Hr.
    rewrite displayProperties_eq in Hi. cbn in Hi.
    rewrite elem_of_add_all, list_elem_of_filter, elem_of_seq in Hi.
    destruct Hi as [[_ Hi]|[Hi _]]; [done|].
    unfold layer_is_route in Hr. by rewrite lookup_ge_None_2 in Hr. }
  split_and!.
  - rewrite displayProperties_eq. cbn. by apply NoDup_add_all, NoDup_filter.
  - intros i Hi Hr. rewrite displayProperties_eq. cbn.
    apply Hone; [by apply Hin | by eapply layer_is_route_displayProperties].
  - rewrite displayProperties_eq at 1 2. unfold route_requests at 1 2. cbn.
    destruct Hflight as [?|[? Hno]]; [by left|right]. split; [done|].
    intros i Hi. destruct (layer_is_route _ i) eqn:Hr; [|done].
    rewrite <- (Hno i); [by eapply eq_sym, layer_is_route_displayProperties|by apply Hin].
Qed.

Lemma route_invariant_showRoute (a b c d : Qc) (w : World) :
  no_route_request w → route_invariant w → route_invariant (showRoute a b c d w).
Proof.
  intros Hnone (Hnd & Hone & _).
  assert (Hreq : length (route_requests (showRoute a b c d w)) = 1%nat).
  { unfold showRoute. rewrite route_requests_request. cbn.
    replace (route_requests _) with (route_requests w)
      by (by destruct (currentRouteLayer w)).
    by rewrite Hnone. }
  assert (Hno : no_route_on_map (showRoute a b c d w)).
  { intros i. unfold showRoute.
    destruct (currentRouteLayer w) as [layer|] eqn:Hcur; cbn.
    - rewrite list_elem_of_filter. intros [Hne Hi].
      destruct (layer_is_route w i) eqn:Hr; [|done].
      specialize (Hone i Hi Hr). congruence.
    - intros Hi. destruct (layer_is_route w i) eqn:Hr; [|done].
      specialize (Hone i Hi Hr). congruence. }
  split_and!.
  - unfold showRoute. destruct (currentRouteLayer w); cbn; [by apply NoDup_filter|done].
  - intros i Hi Hr. by rewrite (Hno i Hi) in Hr.
  - by right.
Qed.

Lemma route_requests_drop (n : nat) (r : Request) (w : World) :
  pending w !! n = Some r →
  length (route_requests w)
  = (length (route_requests (set_pending (delete n (pending w)) w))
     + if is_route_request r then 1 else 0)%nat.
Proof. intros Hn. by apply route_requests_delete. Qed.

Lemma route_invariant_drop (n : nat) (r : Request) (w : World) :
  pending w !! n = Some r →
  route_invariant w → route_invariant (set_pending (delete n (pending w)) w).
Proof.
  intros Hn (Hnd & Hone & Hflight). split_and!; [done|done|].
  pose proof (route_requests_drop n r w Hn) as Hlen.
  destruct Hflight as [Hnone|[Hone_req Hno]].
  - left. apply length_zero_iff_nil. apply (f_equal length) in Hnone.
    change (length []) with 0%nat in Hnone. lia.
  - destruct (is_route_request r).
    + left. apply length_zero_iff_nil. lia.
    + right. split; [lia|done].
Qed.

Lemma route_invariant_route (n : nat) (a b c d : Qc) (points : list LatLng)
    (color : string) (weight : Z) (opacity : Qc) (w : World) :
  pending w !! n = Some (GET_route a b c d) →
  route_invariant w →
  route_invariant
    (set_currentRouteLayer (Some (length (heap w)))
       (add_layer (L_polyline points color weight opacity)
                  (set_pending (delete n (pending w)) w))).
Proof.
  intros Hn (Hnd & Hone & Hflight).
  pose proof (route_requests_drop n _ w Hn) as Hlen. cbn [is_route_request] in Hlen.
  destruct Hflight as [Hnone|[Hone_req Hno]].
  { apply (f_equal length) in Hnone. change (length []) with 0%nat in Hnone. lia. }
  set (w0 := set_pending (delete n (pending w)) w) in *.
  split_and!.
  - cbn. by apply (NoDup_add_layer _ w0).
  - intros i. cbn. rewrite (elem_of_add_layer i _ w0).
    change (layer_is_route (set_currentRouteLayer ?y ?x) i) with (layer_is_route x i).
    rewrite (layer_is_route_add_layer i _ w0).
    change (heap w0) with (heap w). change (map_layers w0) with (map_layers w).
    change (layer_is_route w0 i) with (layer_is_route w i).
    case_bool_decide as Hi; [by subst i|].
    intros [Hin|Hin]; [|done]. by rewrite (Hno i Hin).
  - left. apply length_zero_iff_nil.
    change (route_requests (set_currentRouteLayer ?y (add_layer ?l w0)))
      with (filter (λ r, is_route_request r = true) (pending (add_layer l w0))).
    rewrite add_layer_pending. fold (route_requests w0). lia.
Qed.

Lemma no_route_request_unchanged (w w' : World) :
  unchanged w w' → no_route_request w → no_route_request w'.
Proof. intros (_ & _ & _ & _ & _ & Hreq). unfold no_route_request. by rewrite Hreq. Qed.

Lemma no_route_request_drop (n : nat) (r : Request) (w : World) :
  pending w !! n = Some r →
  no_route_request w → no_route_request (set_pending (delete n (pending w)) w).
Proof.
  intros Hn Hnone. pose proof (route_requests_drop n r w Hn) as Hlen.
  apply (f_equal length) in Hnone. change (length []) with 0%nat in Hnone.
  apply length_zero_iff_nil. lia.
Qed.

Lemma step_route_invariant (w w' : World) (e : Event) :
  step w e = Some w' →
  (calls_showRoute w e = true → no_route_request w) →
  route_invariant w → route_invariant w'.
Proof.
  apply (step_preserves route_invariant no_route_request).
  - apply route_invariant_unchanged.
  - apply no_route_request_unchanged.
  - apply route_invariant_marker.
  - intros latlng icon popup w0. unfold no_route_request, route_requests.
    by rewrite add_layer_pending.
  - apply route_invariant_displayProperties.
  - apply route_invariant_showRoute.
  - apply route_invariant_drop.
  - apply no_route_request_drop.
  - apply route_invariant_route.
Qed.

Lemma run_route_invariant (es : list Event) (w w' : World) :
  run w es = Some w' → sequential w es = true →
  route_invariant w → route_invariant w'.
Proof.
  revert w. induction es as [|e es IH]; intros w Hrun Hseq Hinv; cbn in Hrun, Hseq.
  - by injection Hrun as <-.
  - destruct (step w e) as [w1|] eqn:Hstep; [|discriminate].
    apply andb_true_iff in Hseq as [Hguard Hseq].
    apply (IH w1); [done..|]. eapply step_route_invariant; [done| |done].
    intros Hcall. rewrite Hcall in Hguard. cbn in Hguard.
    unfold no_route_request. by destruct (route_requests w).
Qed.

Lemma route_invariant_page_loaded (i : Inputs) (geolocation : bool) :
  route_invariant (page_loaded i geolocation).
Proof.
  split_and!.
  - apply NoDup_nil_2.
  - intros k Hk. by apply elem_of_nil in Hk.
  - by left.
Qed.

Lemma route_invariant_at_most_one (w : World) :
  route_invariant w → (length (routes_on_map w) ≤ 1)%nat.
Proof.
  intros (Hnd & Hone & _).
  assert (Hnd' : NoDup (routes_on_map w)) by by apply NoDup_filter.
  assert (Hall : ∀ i, i ∈ routes_on_map w → currentRouteLayer w = Some i).
  { intros i [Hr Hi]%list_elem_of_filter. by apply Hone. }
  destruct (routes_on_map w) as [|x [|y l]]; cbn; [lia|lia|].
  exfalso. apply NoDup_cons in Hnd' as [Hx _]. apply Hx.
  assert (x = y) as ->.
  { pose proof (Hall x ltac:(left)) as H1.
    pose proof (Hall y ltac:(right; left)) as H2. congruence. }
  left.
Qed.

Lemma no_route_on_map_routes (w : World) : no_route_on_map w → routes_on_map w = [].
Proof.
  unfold no_route_on_map, routes_on_map.
  induction (map_layers w) as [|x l IH]; intros Hno; [done|].
  rewrite filter_cons, decide_False.
  - apply IH. intros i Hi. apply Hno. by right.
  - rewrite (Hno x) by left. done.
Qed.

(** Every call of [showRoute] removes from the map the layer
    [currentRouteLayer] refers to, before it issues its request.  On a page
    reached by events none of which calls [showRoute] while a route request
    is in flight, the map shows at most one route layer, and it shows none
    from a call of [showRoute] until the reply. *)
Theorem showRoute_single_route_without_overlap
    (i : Inputs) (geolocation : bool) (es : list Event) (w : World) (a b c d : Qc) :
  run (page_loaded i geolocation) es = Some w →
  sequential (page_loaded i geolocation) es = true →
  (length (routes_on_map w) ≤ 1)%nat
  ∧ trace (showRoute a b c d w)
    = trace w
      ++ match currentRouteLayer w with
         | Some layer => [map_removeLayer layer]
         | None => []
         end
      ++ [issued (GET_route a b c d)]
  ∧ match currentRouteLayer w with
    | Some layer => layer ∉ map_layers (showRoute a b c d w)
    | None => map_layers (showRoute a b c d w) = map_layers w
    end
  ∧ (route_requests w = [] → routes_on_map (showRoute a b c d w) = []).
Proof.
  intros Hrun Hseq.
  assert (Hinv : route_invariant w).
  { eapply run_route_invariant; [done..|]. apply route_invariant_page_loaded. }
  split_and!.
  - by apply route_invariant_at_most_one.
  - apply showRoute_trace.
  - unfold showRoute. destruct (currentRouteLayer w) as [layer|]; cbn; [|done].
    apply not_elem_of_filter_ne.
  - intros Hnone. apply no_route_on_map_routes.
    destruct (route_invariant_showRoute a b c d w Hnone Hinv) as (_ & _ & [Hreq|[_ Hno]]);
      [|done].
    unfold showRoute in Hreq. rewrite route_requests_request in Hreq.
    cbn [is_route_request] in Hreq. apply app_eq_nil in Hreq as [_ Hreq].
    discriminate Hreq.
Qed.

Lemma showRoute_single_route_without_overlap_witness :
  ∃ w,
    run (page_loaded example_inputs true) successive_clicks = Some w
    ∧ sequential (page_loaded example_inputs true) successive_clicks = true
    ∧ (length (routes_on_map w) ≤ 1)%nat.
Proof.
  destruct (run (page_loaded example_inputs true) successive_clicks) as [w|] eqn:Hrun;
    [|vm_compute in Hrun; discriminate Hrun].
  exists w.
  assert (Hseq : sequential (page_loaded example_inputs true) successive_clicks = true)
    by (vm_compute; reflexivity).
  split; [reflexivity|]. split; [exact Hseq|].
  exact (proj1 (showRoute_single_route_without_overlap
                  example_inputs true successive_clicks w 0%Qc 0%Qc 0%Qc 0%Qc Hrun Hseq)).
Defined.

(** C3.  The code breaks the claim on this run: [showRoute] is called twice
    before the first reply arrives, each reply then draws its route without
    removing the other, and the map shows two route layers; a later
    [showRoute] removes only the one [currentRouteLayer] refers to. *)
Lemma overlapping_route_requests_show_two_routes :
  routes_on_map <$> run (page_loaded example_inputs true) overlapping_clicks
  = Some [2%nat; 3%nat]
  ∧ routes_on_map
      <$> run (page_loaded example_inputs true)
              (overlapping_clicks ++ [click_marker 0; click_route_btn])
    = Some [2%nat].
Proof. split; vm_compute; reflexivity. Qed.

(** * Properties of the whole page *)

(** ** Events that leave the content of the page alone *)

Lemma same_content_refl (w : World) : same_content w w.
Proof. by repeat split. Qed.

Lemma same_content_trans (w1 w2 w3 : World) :
  same_content w1 w2 → same_content w2 w3 → same_content w1 w3.
Proof.
  intros (H1 & H2 & H3 & H4 & H5 & H6 & H7 & H8 & H9 & H10)
         (K1 & K2 & K3 & K4 & K5 & K6 & K7 & K8 & K9 & K10).
  split_and!; congruence.
Qed.

Lemma same_content_log (e : Effect) (w : World) : same_content w (log e w).
Proof. by repeat split. Qed.

Lemma same_content_request (r : Request) (w : World) : same_content w (request r w).
Proof. by repeat split. Qed.

Lemma same_content_set_pending (x : list Request) (w : World) :
  same_content w (set_pending x w).
Proof. by repeat split. Qed.

Lemma same_content_set_inputs (i : Inputs) (w : World) : same_content w (set_inputs i w).
Proof. by repeat split. Qed.

Lemma same_content_set_map_popup (p : option (LatLng * Content)) (w : World) :
  same_content w (set_map_popup p w).
Proof. by repeat split. Qed.

Lemma same_content_set_map_view (v : View) (w : World) :
  same_content w (set_map_view v w).
Proof. by repeat split. Qed.

Lemma same_content_openPopup (stamp : nat) (w : World) :
  same_content w (openPopup stamp w).
Proof.
  unfold openPopup. destruct (heap w !! stamp) as [[latlng icon [content|]|]|];
    try apply same_content_refl.
  destruct (hasLayer stamp w); [apply same_content_set_map_popup | apply same_content_refl].
Qed.

Lemma same_content_getUserLocation (callback : option LatLng) (w : World) :
  same_content w (getUserLocation callback w).
Proof.
  unfold getUserLocation. destruct (navigator_geolocation w).
  - apply same_content_request.
  - apply same_content_log.
Qed.

Lemma same_content_searchLocation (locationQuery : option string) (w : World) :
  same_content w (searchLocation locationQuery w).
Proof.
  unfold searchLocation. destruct (truthy _).
  - apply same_content_request.
  - apply same_content_refl.
Qed.

Lemma same_content_searchProperties (w : World) : same_content w (searchProperties w).
Proof. unfold searchProperties. apply same_content_request. Qed.

Lemma same_content_calculatePriceEstimate (w : World) :
  same_content w (calculatePriceEstimate w).
Proof.
  unfold calculatePriceEstimate. destruct (_ || _).
  - apply same_content_log.
  - apply same_content_request.
Qed.

Lemma same_content_card_click (c : Card) (w : World) : same_content w (card_click c w).
Proof.
  unfold card_click.
  eapply same_content_trans;
    [apply (same_content_set_map_view (setView (card_latlng c) 16))|].
  generalize (propertyMarkers (set_map_view (setView (card_latlng c) 16) w)).
  generalize (set_map_view (setView (card_latlng c) 16) w).
  intros w0 ms. revert w0. induction ms as [|m ms IH]; intros w0.
  - apply same_content_refl.
  - cbn [foldl]. eapply same_content_trans; [|apply IH].
    case_bool_decide; [apply same_content_openPopup | apply same_content_refl].
Qed.

(** ** Properties of the content kept by every event *)

Section Content.

Variable P : World → Prop.

Hypothesis P_same : ∀ w w', same_content w w' → P w → P w'.
Hypothesis P_geocode : ∀ data w, P w → P (add_layer (geocode_marker data) w).
Hypothesis P_remove :
  ∀ layer w, currentRouteLayer w = Some layer → P w → P (removeLayer layer w).
Hypothesis P_route :
  ∀ points color weight opacity w,
    P w →
    P (set_currentRouteLayer (Some (length (heap w)))
         (add_layer (L_polyline points color weight opacity) w)).
Hypothesis P_place_user : ∀ lat lng w, P w → P (place_user lat lng w).

Lemma showRoute_content (a b c d : Qc) (w : World) : P w → P (showRoute a b c d w).
Proof.
  intros HP. unfold showRoute.
  eapply P_same; [apply same_content_request|].
  destruct (currentRouteLayer w) as [layer|] eqn:Hcur; [by apply P_remove | done].
Qed.

(** The handlers of a properties reply and of an estimate reply are the only
    ones that render properties and show an estimate. *)
Lemma settle_content_gen (r : Request) (reply : Reply) (w w' : World) :
  ((∃ properties, reply = properties_json properties) →
   ∀ properties x, P x → P (displayProperties properties x)) →
  ((∃ estimated_price, reply = estimate_json estimated_price) →
   ∀ estimated_price x, P x → P (estimate_then estimated_price x)) →
  settle r reply w = Some w' → P w → P w'.
Proof.
  intros Hdisplay Hestimate Hsettle HP.
  destruct r as [|body location|location|a b c d|body|callback], reply; cbn in Hsettle;
    try discriminate; injection Hsettle as <-.
  - eapply P_same; [apply same_content_log | done].
  - apply Hdisplay; [by eexists | done].
  - eapply P_same; [apply same_content_log | done].
  - unfold search_then. destruct (truthy location).
    + eapply P_same; [apply same_content_searchLocation|].
      apply Hdisplay; [by eexists | done].
    + apply Hdisplay; [by eexists | done].
  - eapply P_same; [apply same_content_log | done].
  - destruct (Geocode.success data) eqn:Hok.
    + rewrite geocode_then_success by done. fold (geocode_marker data).
      eapply P_same; [apply same_content_openPopup|]. apply P_geocode.
      eapply P_same; [apply same_content_set_map_view | done].
    + destruct (geocode_then_failure data w Hok) as [message ->].
      eapply P_same; [apply same_content_log | done].
  - eapply P_same; [apply same_content_log | done].
  - destruct (Route.success routeData) eqn:Hok.
    + destruct (route_then_add_layer routeData w Hok) as [anchor ->].
      eapply P_same; [apply same_content_set_map_popup|].
      eapply P_same; [apply same_content_set_map_view|].
      by apply P_route.
    + by rewrite route_then_failure.
  - unfold estimate_catch.
    eapply P_same; [apply same_content_log|].
    eapply P_same; [apply same_content_log | done].
  - apply Hestimate; [by eexists | done].
  - rewrite position_then_eq. destruct callback as [[endLat endLng]|].
    + apply showRoute_content. by apply P_place_user.
    + by apply P_place_user.
  - unfold position_catch.
    eapply P_same; [apply same_content_log|].
    eapply P_same; [apply same_content_log | done].
Qed.

Lemma step_content_gen (w w' : World) (e : Event) :
  ((∃ n properties, e = deliver n (properties_json properties)) →
   ∀ properties x, P x → P (displayProperties properties x)) →
  ((∃ n estimated_price, e = deliver n (estimate_json estimated_price)) →
   ∀ estimated_price x, P x → P (estimate_then estimated_price x)) →
  step w e = Some w' → P w → P w'.
Proof.
  intros Hdisplay Hestimate Hstep HP. destruct e; cbn in Hstep.
  - injection Hstep as <-. eapply P_same; [apply same_content_set_inputs | done].
  - injection Hstep as <-. eapply P_same; [apply same_content_getUserLocation | done].
  - injection Hstep as <-.
    eapply P_same; [apply same_content_calculatePriceEstimate | done].
  - injection Hstep as <-. eapply P_same; [apply same_content_searchProperties | done].
  - injection Hstep as <-. eapply P_same; [apply same_content_searchLocation | done].
  - destruct (heap w !! stamp) as [[latlng icon [content|]|]|]; try discriminate.
    destruct (hasLayer stamp w); [|discriminate]. injection Hstep as <-.
    eapply P_same; [apply same_content_openPopup | done].
  - destruct (propertyList w !! n) as [c|]; [|discriminate]. injection Hstep as <-.
    eapply P_same; [apply same_content_card_click | done].
  - destruct (map_popup w) as [[latlng [image price beds baths area address lat lng| |]]|];
      try discriminate.
    injection Hstep as <-. unfold route_btn_click.
    destruct (userLocationMarker w) as [marker|].
    + destruct (getLatLng marker w) as [[userLat userLng]|]; [|done].
      by apply showRoute_content.
    + eapply P_same; [apply same_content_getUserLocation | done].
  - injection Hstep as <-. eapply P_same; [apply same_content_set_map_popup | done].
  - destruct (pending w !! n) as [r|]; [|discriminate].
    eapply settle_content_gen; [| |done|].
    + intros [properties ->]. apply Hdisplay. by eexists _, _.
    + intros [estimated_price ->]. apply Hestimate. by eexists _, _.
    + eapply P_same; [apply same_content_set_pending | done].
Qed.

Hypothesis P_display : ∀ properties w, P w → P (displayProperties properties w).
Hypothesis P_estimate : ∀ estimated_price w, P w → P (estimate_then estimated_price w).

Lemma step_content (w w' : World) (e : Event) : step w e = Some w' → P w → P w'.
Proof. apply step_content_gen; by intros _. Qed.

Lemma run_content (es : list Event) (w w' : World) : run w es = Some w' → P w → P w'.
Proof.
  revert w. induction es as [|e es IH]; intros w Hrun HP; cbn in Hrun.
  - by injection Hrun as <-.
  - destruct (step w e) as [w1|] eqn:Hstep; [|discriminate].
    eapply IH; [done|]. by eapply step_content.
Qed.

End Content.

(** ** The invariant of the page *)

Lemma user_marker_not_property (l : Layer) (property : Property.t) :
  is_user_marker l → l ≠ property_marker property.
Proof.
  intros (latlng & popup & ->). unfold property_marker, priceMarker, userIcon.
  intros H. inversion H.
Qed.

Lemma user_marker_not_route (l : Layer) : is_user_marker l → is_polyline l = false.
Proof. by intros (latlng & popup & ->). Qed.

Lemma add_layer_propertyList (l : Layer) (w : World) :
  propertyList (add_layer l w) = propertyList w.
Proof. unfold add_layer, addTo. cbn -[hasLayer]. by destruct (hasLayer _ _). Qed.

Lemma add_layer_resultCount (l : Layer) (w : World) :
  resultCount (add_layer l w) = resultCount w.
Proof. unfold add_layer, addTo. cbn -[hasLayer]. by destruct (hasLayer _ _). Qed.

Lemma add_layer_lookup_old (l : Layer) (w : World) (i : nat) :
  (i < length (heap w))%nat → heap (add_layer l w) !! i = heap w !! i.
Proof. intros Hi. rewrite add_layer_heap. by apply lookup_app_l. Qed.

Lemma add_layer_lookup_new (l : Layer) (w : World) :
  heap (add_layer l w) !! length (heap w) = Some l.
Proof. rewrite add_layer_heap. by apply list_lookup_middle. Qed.

Lemma add_layer_lookup_Some (l l' : Layer) (w : World) (i : nat) :
  heap (add_layer l w) !! i = Some l' →
  heap w !! i = Some l' ∨ (i = length (heap w) ∧ l' = l).
Proof.
  rewrite add_layer_heap. intros H. apply lookup_app_Some in H as [H|[Hge H]]; [by left|].
  right. apply list_lookup_singleton_Some in H as [Hi ->]. split; [lia|done].
Qed.

Lemma marker_matches_card_mono (w w' : World) (ms : list nat) (cs : list Card) :
  (∀ m, m ∈ ms → m ∈ map_layers w → m ∈ map_layers w') →
  (∀ m, m ∈ ms → m ∈ map_layers w → heap w' !! m = heap w !! m) →
  Forall2 (marker_matches_card w) ms cs → Forall2 (marker_matches_card w') ms cs.
Proof.
  intros Hmap Hheap Hall. induction Hall as [|m c ms cs (Hin & p & Hp & Hc) _ IH].
  - constructor.
  - constructor.
    + split; [apply Hmap; [left|done]|]. exists p. split; [|done].
      rewrite Hheap; [done|left|done].
    + apply IH.
      * intros m' Hm'. apply Hmap. by right.
      * intros m' Hm'. apply Hheap. by right.
Qed.

Lemma tracked_marker_is_property (w : World) (m : nat) :
  Forall2 (marker_matches_card w) (propertyMarkers w) (propertyList w) →
  m ∈ propertyMarkers w →
  m ∈ map_layers w ∧ ∃ property, heap w !! m = Some (property_marker property).
Proof.
  intros Hall Hm. apply list_elem_of_lookup in Hm as [k Hk].
  destruct (Forall2_lookup_l _ _ _ _ _ Hall Hk) as (c & _ & Hin & p & Hp & _).
  split; [done|]. by exists p.
Qed.

Lemma page_invariant_same (w w' : World) :
  same_content w w' → page_invariant w → page_invariant w'.
Proof.
  intros (Hheap & Hmap & Hpm & Hcur & Huser & Hlist & Hcount & _)
         (Ha & Hnd & Hndm & Hsync & Hc & Hroute & Hu & Huniq).
  unfold page_invariant, allocated, layer_is_route.
  rewrite Hheap, Hmap, Hpm, Hcur, Huser, Hlist, Hcount.
  split_and!; try done.
  eapply marker_matches_card_mono; [| |done].
  - intros m _. by rewrite Hmap.
  - intros m _ _. by rewrite Hheap.
Qed.

Lemma page_invariant_displayProperties (properties : list Property.t) (w : World) :
  page_invariant w → page_invariant (displayProperties properties w).
Proof.
  intros (Ha & Hnd & Hndm & Hsync & Hc & Hroute & Hu & Huniq).
  pose proof (allocated_displayProperties properties w Ha) as Ha'.
  rewrite displayProperties_eq in Ha' |- *.
  unfold page_invariant, marker_matches_card, layer_is_route. cbn.
  split_and!.
  - exact Ha'.
  - by apply NoDup_add_all, NoDup_filter.
  - apply NoDup_seq.
  - apply Forall2_same_length_lookup_2.
    + by rewrite length_seq, length_fmap.
    + intros k m c Hm Hcard. apply lookup_seq in Hm as [-> Hk].
      rewrite list_lookup_fmap in Hcard.
      destruct (properties !! k) as [p|] eqn:Hp; [|done]. injection Hcard as <-.
      split.
      * apply elem_of_add_all. right. apply elem_of_seq. lia.
      * exists p. split; [|done]. rewrite lookup_app_r by lia.
        replace (length (heap w) + k - length (heap w))%nat with k by lia.
        by rewrite list_lookup_fmap, Hp.
  - right. by rewrite length_seq.
  - intros l Hl. specialize (Hroute l Hl). unfold layer_is_route in Hroute.
    rewrite lookup_app_l; [done|]. apply Ha. tauto.
  - intros u Huser. destruct (Hu u Huser) as (Hin & l & Hl & Hlu). split.
    + apply elem_of_add_all. left. apply list_elem_of_filter. split; [|done].
      intros Hpm. destruct (tracked_marker_is_property w u Hsync Hpm) as (_ & p & Hp).
      rewrite Hl in Hp. injection Hp as ->. by eapply user_marker_not_property.
    + exists l. split; [|done]. rewrite lookup_app_l; [done|by eapply lookup_lt_Some].
  - intros s l Hs Hl. apply lookup_app_Some in Hs as [Hs|[_ Hs]]; [by eapply Huniq|].
    rewrite list_lookup_fmap in Hs. destruct (properties !! _); [|done].
    injection Hs as <-. exfalso. by eapply user_marker_not_property.
Qed.

Lemma allocated_lookup (w : World) (m : nat) :
  allocated w → m ∈ map_layers w → is_Some (heap w !! m).
Proof. intros Ha Hm. apply lookup_lt_is_Some, Ha. tauto. Qed.

(** A new object that is no user marker, put on the map. *)
Lemma page_invariant_add_layer (l : Layer) (w : World) :
  ¬ is_user_marker l → page_invariant w → page_invariant (add_layer l w).
Proof.
  intros Hl (Ha & Hnd & Hndm & Hsync & Hc & Hroute & Hu & Huniq).
  unfold page_invariant.
  rewrite add_layer_propertyMarkers, add_layer_propertyList, add_layer_resultCount,
    add_layer_currentRouteLayer, add_layer_userLocationMarker.
  split_and!; try done.
  - by apply allocated_add_layer.
  - by apply NoDup_add_layer.
  - eapply marker_matches_card_mono; [| |done].
    + intros m _ Hm. apply elem_of_add_layer. by left.
    + intros m _ Hm. apply add_layer_lookup_old, Ha. tauto.
  - intros r Hr. rewrite layer_is_route_add_layer.
    rewrite bool_decide_eq_false_2; [by apply Hroute|].
    assert (r < length (heap w))%nat by (apply Ha; tauto). lia.
  - intros u Huser. destruct (Hu u Huser) as (Hin & l' & Hl' & Hlu). split.
    + apply elem_of_add_layer. by left.
    + exists l'. split; [|done]. rewrite add_layer_lookup_old; [done|].
      by eapply lookup_lt_Some.
  - intros s l' Hs Hl'. apply add_layer_lookup_Some in Hs as [Hs|[_ ->]]; [|done].
    by eapply Huniq.
Qed.

Lemma not_user_marker_geocode (data : Geocode.t) : ¬ is_user_marker (geocode_marker data).
Proof. intros (latlng & popup & H). inversion H. Qed.

Lemma not_user_marker_polyline (points : list LatLng) (color : string) (weight : Z)
    (opacity : Qc) :
  ¬ is_user_marker (L_polyline points color weight opacity).
Proof. intros (latlng & popup & H). inversion H. Qed.

Lemma page_invariant_removeLayer (layer : nat) (w : World) :
  currentRouteLayer w = Some layer →
  page_invariant w → page_invariant (removeLayer layer w).
Proof.
  intros Hcur (Ha & Hnd & Hndm & Hsync & Hc & Hroute & Hu & Huniq).
  pose proof (Hroute layer Hcur) as Hline. unfold layer_is_route in Hline.
  unfold page_invariant, allocated, layer_is_route. cbn.
  split_and!; try done.
  - intros i Hi. apply Ha. rewrite list_elem_of_filter in Hi. tauto.
  - by apply NoDup_filter.
  - eapply marker_matches_card_mono; [| |done].
    + intros m Hm Hin. cbn. apply list_elem_of_filter. split; [|done]. intros ->.
      destruct (tracked_marker_is_property w layer Hsync Hm) as (_ & p & Hp).
      by rewrite Hp in Hline.
    + done.
  - intros u Huser. destruct (Hu u Huser) as (Hin & l & Hl & Hlu). split; [|by exists l].
    apply list_elem_of_filter. split; [|done]. intros ->.
    rewrite Hl in Hline. by rewrite (user_marker_not_route l) in Hline.
Qed.

Lemma page_invariant_route (points : list LatLng) (color : string) (weight : Z)
    (opacity : Qc) (w : World) :
  page_invariant w →
  page_invariant (set_currentRouteLayer (Some (length (heap w)))
                    (add_layer (L_polyline points color weight opacity) w)).
Proof.
  intros Hinv.
  pose proof (page_invariant_add_layer (L_polyline points color weight opacity) w
                (not_user_marker_polyline _ _ _ _) Hinv)
    as (Ha & Hnd & Hndm & Hsync & Hc & Hroute & Hu & Huniq).
  unfold page_invariant, allocated, layer_is_route. cbn.
  split_and!; try done.
  - intros i [Hi|[Hi|[= <-]]]; [apply Ha; tauto | apply Ha; tauto |].
    rewrite add_layer_heap, length_app. cbn. lia.
  - intros l [= <-]. by rewrite add_layer_lookup_new.
Qed.

Lemma page_invariant_place_user (lat lng : Qc) (w : World) :
  page_invariant w → page_invariant (place_user lat lng w).
Proof.
  intros Hinv. unfold place_user.
  eapply page_invariant_same; [apply same_content_set_map_view|].
  destruct (userLocationMarker w) as [u|] eqn:Huser.
  - destruct Hinv as (Ha & Hnd & Hndm & Hsync & Hc & Hroute & Hu & Huniq).
    destruct (Hu u Huser) as (Hin & l & Hl & latlng & popup & ->).
    unfold setLatLng. rewrite Hl.
    assert (Hlt : (u < length (heap w))%nat) by by eapply lookup_lt_Some.
    unfold page_invariant, allocated, layer_is_route. cbn.
    rewrite length_insert, Huser.
    split_and!; try done.
    + eapply marker_matches_card_mono; [| |done]; [done|].
      intros m Hm _. cbn. apply list_lookup_insert_ne. intros <-.
      destruct (tracked_marker_is_property w u Hsync Hm) as (_ & p & Hp).
      assert (Hx : L_marker latlng (Some userIcon) popup = property_marker p)
        by congruence.
      revert Hx. apply user_marker_not_property. by eexists _, _.
    + intros r Hr. specialize (Hroute r Hr). unfold layer_is_route in Hroute.
      rewrite list_lookup_insert_ne; [done|]. intros <-. by rewrite Hl in Hroute.
    + intros ? [= <-]. split; [done|]. eexists. split.
      * by apply list_lookup_insert_eq.
      * by eexists _, _.
    + intros s l Hs Hlu. destruct (decide (u = s)) as [->|Hne]; [done|].
      rewrite list_lookup_insert_ne in Hs by done. rewrite <- Huser. by eapply Huniq.
  - pose proof Hinv as (Ha & _ & _ & _ & _ & _ & _ & Huniq).
    assert (Hnew : ∀ s l, heap w !! s = Some l → ¬ is_user_marker l).
    { intros s l Hs Hl. specialize (Huniq s l Hs Hl). by rewrite Huser in Huniq. }
    set (l := L_marker (lat, lng) (Some userIcon) None).
    assert (Hlayers : ∀ i, i ∈ map_layers w → i ∈ map_layers (add_layer l w)).
    { intros i Hi. apply elem_of_add_layer. by left. }
    destruct Hinv as (_ & Hnd & Hndm & Hsync & Hc & Hroute & Hu & _).
    unfold page_invariant, allocated, layer_is_route. cbn.
    rewrite add_layer_propertyMarkers, add_layer_propertyList, add_layer_resultCount,
      add_layer_currentRouteLayer.
    split_and!; try done.
    + intros i Hi. apply (allocated_add_layer l w Ha).
      by rewrite add_layer_propertyMarkers, add_layer_currentRouteLayer.
    + by apply NoDup_add_layer.
    + eapply marker_matches_card_mono; [| |done].
      * intros m _. apply Hlayers.
      * intros m _ Hm. apply add_layer_lookup_old, Ha. tauto.
    + intros r Hr. specialize (Hroute r Hr). unfold layer_is_route in Hroute.
      rewrite add_layer_lookup_old; [done|]. apply Ha. tauto.
    + intros ? [= <-]. split.
      * apply elem_of_add_layer. by right.
      * exists l. split; [apply add_layer_lookup_new|]. by eexists _, _.
    + intros s l' Hs Hl'. apply add_layer_lookup_Some in Hs as [Hs|[-> _]]; [|done].
      by destruct (Hnew s l' Hs).
Qed.

Lemma page_invariant_estimate_then (estimated_price : Z) (w : World) :
  page_invariant w → page_invariant (estimate_then estimated_price w).
Proof. done. Qed.

Lemma page_invariant_page_loaded (i : Inputs) (geolocation : bool) :
  page_invariant (page_loaded i geolocation).
Proof.
  unfold page_invariant. cbn. split_and!; try done.
  - apply allocated_page_loaded.
  - apply NoDup_nil_2.
  - apply NoDup_nil_2.
  - by left.
Qed.

Lemma run_page_invariant (i : Inputs) (geolocation : bool) (es : list Event) (w : World) :
  run (page_loaded i geolocation) es = Some w → page_invariant w.
Proof.
  intros Hrun.
  apply (run_content page_invariant) with (es := es) (w := page_loaded i geolocation);
    try done.
  - apply page_invariant_same.
  - intros data w0. apply page_invariant_add_layer, not_user_marker_geocode.
  - apply page_invariant_removeLayer.
  - apply page_invariant_route.
  - apply page_invariant_place_user.
  - apply page_invariant_displayProperties.
  - apply page_invariant_page_loaded.
Qed.

(** ** The sidebar and the markers *)



(** ** The marker of the user's location *)

Lemma shows_user_spec (w : World) (s : nat) :
  shows_user w s = true ↔ ∃ l, heap w !! s = Some l ∧ is_user_marker l.
Proof.
  unfold shows_user, is_user_marker. split.
  - destruct (heap w !! s) as [[latlng [icon|] popup|]|]; try done.
    intros ->%bool_decide_eq_true. eexists. split; [done|]. by eexists _, _.
  - intros (l & -> & latlng & popup & ->). by apply bool_decide_eq_true.
Qed.

Lemma filter_none (P : nat → Prop) `{!∀ x, Decision (P x)} (l : list nat) :
  (∀ x, x ∈ l → ¬ P x) → filter P l = [].
Proof.
  induction l as [|x l IH]; intros HP; [done|].
  rewrite filter_cons, decide_False by (apply HP; left).
  apply IH. intros z Hz. apply HP. by right.
Qed.

Lemma filter_only (P : nat → Prop) `{!∀ x, Decision (P x)} (u : nat) (l : list nat) :
  NoDup l → u ∈ l → (∀ x, x ∈ l → P x ↔ x = u) → filter P l = [u].
Proof.
  induction l as [|x l IH]; intros Hnd Hu HP; [by apply elem_of_nil in Hu|].
  apply NoDup_cons in Hnd as [Hx Hnd]. rewrite filter_cons.
  assert (Hhead : P x ↔ x = u) by (apply HP; left).
  assert (Htail : ∀ z, z ∈ l → P z ↔ z = u) by (intros z Hz; apply HP; by right).
  destruct (decide (P x)) as [Hp|Hp].
  - apply Hhead in Hp as ->. f_equal. apply filter_none.
    intros z Hz Hpz. apply Htail in Hpz; [|done]. by subst z.
  - apply IH; [done| |done].
    apply elem_of_cons in Hu as [->|Hu]; [|done]. exfalso. by apply Hp, Hhead.
Qed.

Lemma page_invariant_user_markers (w : World) :
  page_invariant w →
  user_markers_on_map w
  = match userLocationMarker w with
    | Some u => [u]
    | None => []
    end.
Proof.
  intros (_ & Hnd & _ & _ & _ & _ & Hu & Huniq).
  unfold user_markers_on_map.
  destruct (userLocationMarker w) as [u|] eqn:Huser.
  - destruct (Hu u eq_refl) as (Hin & l & Hl & Hlu).
    apply filter_only; [done..|]. intros s _. rewrite shows_user_spec. split.
    + intros (l' & Hs & Hl'). specialize (Huniq s l' Hs Hl'). congruence.
    + intros ->. by exists l.
  - apply filter_none. intros s _. rewrite shows_user_spec.
    intros (l & Hs & Hl). by specialize (Huniq s l Hs Hl).
Qed.

(** X2.  On every page reached from the loaded page, the map shows at most
    one marker of the user's location: exactly the one [userLocationMarker]
    refers to, and none while the variable is [null]. *)
Theorem user_location_marker_is_single
    (i : Inputs) (geolocation : bool) (es : list Event) (w : World) :
  run (page_loaded i geolocation) es = Some w →
  user_markers_on_map w
  = match userLocationMarker w with
    | Some u => [u]
    | None => []
    end.
Proof.
  intros Hrun. by apply page_invariant_user_markers, (run_page_invariant i geolocation es).
Qed.

Lemma user_location_marker_is_single_witness :
  ∃ w,
    run (page_loaded example_inputs true) successive_clicks = Some w
    ∧ user_markers_on_map w = [1%nat].
Proof.
  destruct (run (page_loaded example_inputs true) successive_clicks) as [w|] eqn:Hrun;
    [|vm_compute in Hrun; discriminate Hrun].
  exists w. split; [reflexivity|].
  rewrite (user_location_marker_is_single example_inputs true successive_clicks w Hrun).
  vm_compute in Hrun. injection Hrun as <-. reflexivity.
Defined.

Lemma showRoute_heap (a b c d : Qc) (w : World) : heap (showRoute a b c d w) = heap w.
Proof. unfold showRoute. by destruct (currentRouteLayer w). Qed.

Lemma showRoute_userLocationMarker (a b c d : Qc) (w : World) :
  userLocationMarker (showRoute a b c d w) = userLocationMarker w.
Proof. unfold showRoute. by destruct (currentRouteLayer w). Qed.

Lemma showRoute_map_view (a b c d : Qc) (w : World) :
  map_view (showRoute a b c d w) = map_view w.
Proof. unfold showRoute. by destruct (currentRouteLayer w). Qed.

Lemma position_then_keeps (callback : option LatLng) (lat lng : Qc) (w : World) :
  heap (position_then callback lat lng w) = heap (place_user lat lng w)
  ∧ userLocationMarker (position_then callback lat lng w)
    = userLocationMarker (place_user lat lng w)
  ∧ map_view (position_then callback lat lng w) = setView (lat, lng) 15.
Proof.
  rewrite position_then_eq. destruct callback as [[endLat endLng]|].
  - by rewrite showRoute_heap, showRoute_userLocationMarker, showRoute_map_view.
  - done.
Qed.

(** X3.  A position reply on a page reached from the loaded page centres
    the map on the position at zoom 15.  When the user's marker exists it is
    moved there in place: the same stamp, no new object, every other object
    as it was.  When it does not exist it is made at the position, with the
    user icon and a new stamp, and put on the map. *)
Theorem position_reply_moves_or_makes_user_marker
    (i : Inputs) (geolocation : bool) (es : list Event)
    (n : nat) (lat lng : Qc) (w w' : World) :
  run (page_loaded i geolocation) es = Some w →
  step w (deliver n (position lat lng)) = Some w' →
  map_view w' = setView (lat, lng) 15
  ∧ match userLocationMarker w with
    | Some u =>
        userLocationMarker w' = Some u
        ∧ length (heap w') = length (heap w)
        ∧ getLatLng u w' = Some (lat, lng)
        ∧ ∀ s, s ≠ u → heap w' !! s = heap w !! s
    | None =>
        userLocationMarker w' = Some (length (heap w))
        ∧ heap w' = heap w ++ [L_marker (lat, lng) (Some userIcon) None]
        ∧ user_markers_on_map w' = [length (heap w)]
    end.
Proof.
  intros Hrun Hstep.
  assert (Hrun' : run (page_loaded i geolocation) (es ++ [deliver n (position lat lng)])
                  = Some w').
  { clear -Hrun Hstep. revert Hrun. generalize (page_loaded i geolocation).
    induction es as [|e es IH]; intros w0 Hrun; cbn in *.
    - injection Hrun as ->. by rewrite Hstep.
    - destruct (step w0 e); [by apply IH | done]. }
  pose proof (page_invariant_user_markers _ (run_page_invariant _ _ _ _ Hrun'))
    as Hsingle.
  destruct (run_page_invariant i geolocation es w Hrun)
    as (_ & _ & _ & _ & _ & _ & Hu & _).
  cbn in Hstep. destruct (pending w !! n) as [r|]; [|discriminate].
  destruct r; cbn in Hstep; try discriminate. injection Hstep as <-.
  destruct (position_then_keeps callback lat lng (set_pending (delete n (pending w)) w))
    as (Hheap & Huser & Hview).
  rewrite Huser in Hsingle. rewrite Hheap, Huser, Hview. unfold getLatLng. rewrite Hheap.
  clear Hheap Huser Hview Hrun'. unfold place_user in *. cbn in *.
  split; [done|].
  destruct (userLocationMarker w) as [u|] eqn:Hu0.
  - destruct (Hu u eq_refl) as (Hin & l & Hl & latlng & popup & ->).
    unfold setLatLng. cbn. rewrite Hl. cbn.
    split_and!; [done|apply length_insert| |].
    + rewrite list_lookup_insert_eq; [done|by eapply lookup_lt_Some].
    + intros s Hs. by apply list_lookup_insert_ne.
  - cbn. rewrite add_layer_heap. cbn. cbn in Hsingle. done.
Qed.

Lemma position_reply_moves_or_makes_user_marker_witness :
  ∃ w',
    run (page_loaded example_inputs true) [click_currentLocation]
    = Some (getUserLocation None (page_loaded example_inputs true))
    ∧ step (getUserLocation None (page_loaded example_inputs true))
           (deliver 1 (position (Qc_of_Z 1) (Qc_of_Z 2))) = Some w'
    ∧ map_view w' = setView (Qc_of_Z 1, Qc_of_Z 2) 15.
Proof.
  destruct (step (getUserLocation None (page_loaded example_inputs true))
              (deliver 1 (position (Qc_of_Z 1) (Qc_of_Z 2)))) as [w'|] eqn:Hstep;
    [|vm_compute in Hstep; discriminate Hstep].
  exists w'. split; [reflexivity|]. split; [reflexivity|].
  exact (proj1 (position_reply_moves_or_makes_user_marker
                  example_inputs true [click_currentLocation] 1
                  (Qc_of_Z 1) (Qc_of_Z 2) _ w' eq_refl Hstep)).
Defined.

(** ** Clicking a card of the sidebar *)

Lemma openPopup_bound (stamp : nat) (w : World) :
  openPopup stamp w
  = match bound_popup w stamp with
    | Some p => set_map_popup (Some p) w
    | None => w
    end.
Proof.
  unfold openPopup, bound_popup.
  destruct (heap w !! stamp) as [[latlng icon [content|]|]|]; try done.
  by destruct (hasLayer stamp w).
Qed.

Lemma set_map_popup_same (w : World) : set_map_popup (map_popup w) w = w.
Proof. by apply World_eq. Qed.

(** The loop of the click handler: the popup left open is the one of the
    last tracked marker at the coordinates of the card. *)
Lemma card_click_loop (target : LatLng) (ms : list nat) (w : World)
    (p : option (LatLng * Content)) :
  foldl (λ w marker,
           if bool_decide (getLatLng marker w = Some target)
           then openPopup marker w else w)
        (set_map_popup p w) ms
  = set_map_popup
      (foldl (λ acc marker,
                if bool_decide (getLatLng marker w = Some target)
                then match bound_popup w marker with Some q => Some q | None => acc end
                else acc)
             p ms)
      w.
Proof.
  revert p. induction ms as [|m ms IH]; intros p; [done|].
  cbn [foldl]. change (getLatLng m (set_map_popup p w)) with (getLatLng m w).
  case_bool_decide; [|apply IH].
  rewrite openPopup_bound.
  change (bound_popup (set_map_popup p w) m) with (bound_popup w m).
  destruct (bound_popup w m) as [q|]; [|apply IH].
  change (set_map_popup (Some q) (set_map_popup p w)) with (set_map_popup (Some q) w).
  apply IH.
Qed.







(** ** Searching *)

Lemma delete_last_request (l : list Request) (r : Request) :
  delete (length l) (l ++ [r]) = l.
Proof. by rewrite delete_middle, app_nil_r. Qed.

Lemma fetches_app (t1 t2 : list Effect) : fetches (t1 ++ t2) = fetches t1 ++ fetches t2.
Proof. apply omap_app. Qed.

Lemma alerts_app (t1 t2 : list Effect) : alerts (t1 ++ t2) = alerts t1 ++ alerts t2.
Proof. apply omap_app. Qed.

Lemma fetches_removeLayers (stamps : list nat) : fetches (map_removeLayer <$> stamps) = [].
Proof. by induction stamps. Qed.

Lemma fetches_addLayers (stamps : list nat) : fetches (map_addLayer <$> stamps) = [].
Proof. by induction stamps. Qed.

Ltac fold_fetches :=
  match goal with |- omap ?f ?t = ?rhs => change (fetches t = rhs) end.

(** A request just issued is the next one a reply can settle. *)
Lemma deliver_last_request (r : Request) (reply : Reply) (w : World) :
  step (request r w) (deliver (length (pending w)) reply)
  = settle r reply (set_pending (pending w) (log (issued r) w)).
Proof.
  unfold step. change (pending (request r w)) with (pending w ++ [r]).
  rewrite list_lookup_middle by done. rewrite delete_last_request.
  f_equal.
Qed.

Lemma searchProperties_request (w : World) :
  ∃ body, searchProperties w = request (POST_search body (location (inputs w))) w.
Proof. unfold searchProperties. by eexists. Qed.

(** X5.  A search sends one request whatever the form holds.  Its reply
    renders the properties received and then asks for the coordinates of the
    location that was in the form when the search was submitted, if it was
    not empty, whatever the form holds when the reply arrives; the location
    search field is not read. *)
Theorem search_reply_geocodes_submitted_location
    (w : World) (edited : Inputs) (properties : list Property.t) :
  let submitted := location (inputs w) in
  ∃ body w',
    step w submit_property_search_form
    = Some (request (POST_search body submitted) w)
    ∧ run w [submit_property_search_form;
             edit edited;
             deliver (length (pending w)) (properties_json properties)]
      = Some w'
    ∧ propertyList w' = propertyCard <$> properties
    ∧ resultCount w' = pretty (length properties)
    ∧ inputs w' = edited
    ∧ pending w'
      = pending w ++ (if truthy submitted then [GET_geocode submitted] else [])
    ∧ fetches (trace w')
      = fetches (trace w)
        ++ POST_search body submitted
           :: (if truthy submitted then [GET_geocode submitted] else []).
Proof.
  intros submitted. destruct (searchProperties_request w) as [body Hbody].
  fold submitted in Hbody. exists body. eexists.
  set (r := POST_search body submitted) in *.
  assert (H1 : step w submit_property_search_form = Some (request r w)).
  { cbn. by rewrite Hbody. }
  assert (H2 : step (request r w) (edit edited)
               = Some (request r (set_inputs edited w))) by done.
  assert (H3 : step (request r (set_inputs edited w))
                 (deliver (length (pending w)) (properties_json properties))
               = Some (search_then submitted properties
                         (set_pending (pending w) (log (issued r) (set_inputs edited w))))).
  { apply (deliver_last_request r (properties_json properties) (set_inputs edited w)). }
  split; [done|].
  split; [cbn [run]; rewrite H1, H2, H3; reflexivity|].
  clear H1 H2 H3.
  unfold search_then. rewrite displayProperties_eq.
  unfold searchLocation.
  destruct (truthy submitted) eqn:Hs; rewrite ?Hs; cbn; rewrite ?Hs; cbn.
  all: split_and!; try done.
  - fold_fetches.
    rewrite !fetches_app, fetches_removeLayers, fetches_addLayers.
    repeat (progress change (fetches [issued ?x]) with [x]). cbn [app]. by rewrite app_nil_r, <- app_assoc.
  - by rewrite app_nil_r.
  - fold_fetches.
    rewrite !fetches_app, fetches_removeLayers, fetches_addLayers.
    repeat (progress change (fetches [issued ?x]) with [x]). cbn [app]. by rewrite app_nil_r.
Qed.

(** ** Failed requests *)



(** ** The price estimate *)

Lemma add_layer_estimate (l : Layer) (w : World) :
  estimated_price_value (add_layer l w) = estimated_price_value w
  ∧ estimation_result_display (add_layer l w) = estimation_result_display w.
Proof. unfold add_layer, addTo. cbn -[hasLayer]. by destruct (hasLayer _ _). Qed.

(** X7.  The estimate shown changes only when a reply to an estimate request
    succeeds: the reply shows the price received, grouped, after a dollar
    sign, and makes the result visible.  Every other event, a failed
    estimate and a new request included, leaves the text and its visibility
    as they are: the result is never hidden or cleared again. *)
Theorem estimate_changes_only_on_its_reply (w w' : World) (e : Event) :
  step w e = Some w' →
  match e with
  | deliver _ (estimate_json estimated_price) =>
      estimated_price_value w' = "$" +:+ toLocaleString estimated_price
      ∧ estimation_result_display w' = "block"
  | _ =>
      estimated_price_value w' = estimated_price_value w
      ∧ estimation_result_display w' = estimation_result_display w
  end.
Proof.
  intros Hstep.
  assert (Hother : (∀ n estimated_price, e ≠ deliver n (estimate_json estimated_price)) →
                   estimated_price_value w' = estimated_price_value w
                   ∧ estimation_result_display w' = estimation_result_display w).
  { intros Hother.
    apply (step_content_gen
             (λ x, estimated_price_value x = estimated_price_value w
                   ∧ estimation_result_display x = estimation_result_display w))
      with (w := w) (e := e); try done.
    - intros x x' (_ & _ & _ & _ & _ & _ & _ & Hv & Hd & _) [Hv' Hd']. split; congruence.
    - intros data x [Hv Hd]. destruct (add_layer_estimate (geocode_marker data) x).
      split; congruence.
    - intros points color weight opacity x [Hv Hd].
      destruct (add_layer_estimate (L_polyline points color weight opacity) x).
      cbn. split; congruence.
    - intros lat lng x [Hv Hd]. unfold place_user.
      destruct (userLocationMarker x) as [u|].
      + unfold setLatLng. by destruct (heap x !! u) as [[]|].
      + destruct (add_layer_estimate (L_marker (lat, lng) (Some userIcon) None) x).
        cbn. split; congruence.
    - intros _ properties x Hx. by rewrite displayProperties_eq.
    - intros (n & estimated_price & ->). by destruct (Hother n estimated_price). }
  destruct e as [| | | | | | | | |n []]; try (by apply Hother; intros ? ? [=]).
  cbn in Hstep. destruct (pending w !! n) as [[]|]; try discriminate.
  by injection Hstep as <-.
Qed.

Lemma estimate_changes_only_on_its_reply_witness :
  ∃ w1 w2 w3,
    run (page_loaded example_inputs true)
        [click_calculateEstimateBtn; deliver 1 (estimate_json 1234567)] = Some w1
    ∧ step w1 click_calculateEstimateBtn = Some w2
    ∧ step w2 (deliver 1 (rejected "TypeError")) = Some w3
    ∧ estimated_price_value w1 = "$1,234,567"
    ∧ estimated_price_value w3 = "$1,234,567"
    ∧ estimation_result_display w3 = "block".
Proof.
  destruct (run (page_loaded example_inputs true) [click_calculateEstimateBtn]) as [w0|]
    eqn:Hrun0; [|vm_compute in Hrun0; discriminate Hrun0].
  destruct (step w0 (deliver 1 (estimate_json 1234567))) as [w1|] eqn:Hstep1;
    [|revert Hstep1; injection Hrun0 as <-; intros Hstep1;
      vm_compute in Hstep1; discriminate Hstep1].
  destruct (step w1 click_calculateEstimateBtn) as [w2|] eqn:Hstep2;
    [|discriminate Hstep2].
  destruct (step w2 (deliver 1 (rejected "TypeError"))) as [w3|] eqn:Hstep3.
  2: { exfalso. revert Hstep1 Hstep2 Hstep3. injection Hrun0 as <-.
       intros Hstep1. vm_compute in Hstep1. injection Hstep1 as <-.
       intros Hstep2. vm_compute in Hstep2. injection Hstep2 as <-.
       intros Hstep3. vm_compute in Hstep3. discriminate Hstep3. }
  exists w1, w2, w3.
  pose proof (estimate_changes_only_on_its_reply _ _ _ Hstep1) as [Hv1 Hd1].
  pose proof (estimate_changes_only_on_its_reply _ _ _ Hstep2) as [Hv2 Hd2].
  pose proof (estimate_changes_only_on_its_reply _ _ _ Hstep3) as [Hv3 Hd3].
  cbn [step] in Hv3, Hd3.
  split.
  { cbn [run]. change (step (page_loaded example_inputs true) click_calculateEstimateBtn)
      with (run (page_loaded example_inputs true) [click_calculateEstimateBtn]).
    rewrite Hrun0. by rewrite Hstep1. }
  split; [done|]. split; [done|].
  split; [exact Hv1|]. split; [|congruence].
  rewrite Hv3, Hv2. exact Hv1.
Defined.

(** ** The route button *)

Lemma showRoute_pending (a b c d : Qc) (w : World) :
  pending (showRoute a b c d w) = pending w ++ [GET_route a b c d].
Proof. unfold showRoute. by destruct (currentRouteLayer w). Qed.

Lemma place_user_pending (lat lng : Qc) (w : World) :
  pending (place_user lat lng w) = pending w.
Proof.
  unfold place_user. destruct (userLocationMarker w) as [u|].
  - unfold setLatLng. by destruct (heap w !! u) as [[]|].
  - cbn. apply add_layer_pending.
Qed.

(** X8.  The route button of a property popup asks for a route from the
    user to that property.  When the user's marker exists the route starts
    where the marker is, and no position is asked for.  When it does not
    exist the position is asked for first, and its reply makes the marker and
    asks for the route from the position received to the property whose
    popup was open at the click, also when the popup has been closed since.
    Without geolocation the click only alerts. *)
Theorem route_button_asks_route_from_user_to_property
    (w : World) (anchor : LatLng) (image price : string) (bedrooms bathrooms : Z)
    (area : Qc) (address : string) (lat lng latitude longitude : Qc) :
  map_popup w
  = Some (anchor, property_popup image price bedrooms bathrooms area address lat lng) →
  match userLocationMarker w with
  | Some marker =>
      match getLatLng marker w with
      | Some (userLat, userLng) =>
          ∃ w', step w click_route_btn = Some w'
                ∧ pending w' = pending w ++ [GET_route userLat userLng lat lng]
      | None => step w click_route_btn = Some w
      end
  | None =>
      if navigator_geolocation w then
        ∃ w', run w [click_route_btn; close_popup;
                     deliver (length (pending w)) (position latitude longitude)]
              = Some w'
              ∧ pending w' = pending w ++ [GET_route latitude longitude lat lng]
              ∧ userLocationMarker w' = Some (length (heap w))
              ∧ getLatLng (length (heap w)) w' = Some (latitude, longitude)
      else
        ∃ w', step w click_route_btn = Some w'
              ∧ pending w' = pending w
              ∧ alerts (trace w')
                = alerts (trace w) ++ ["Geolocation is not supported by your browser."]
  end.
Proof.
  intros Hpopup.
  assert (Hclick : step w click_route_btn = Some (route_btn_click lat lng w)).
  { unfold step. by rewrite Hpopup. }
  unfold route_btn_click in Hclick.
  destruct (userLocationMarker w) as [marker|] eqn:Huser.
  - destruct (getLatLng marker w) as [[userLat userLng]|]; [|done].
    eexists. split; [done|]. apply showRoute_pending.
  - unfold getUserLocation in Hclick.
    destruct (navigator_geolocation w).
    + set (r := getCurrentPosition (Some (lat, lng))) in *.
      assert (H2 : step (request r w) close_popup
                   = Some (request r (set_map_popup None w))) by done.
      assert (H3 : step (request r (set_map_popup None w))
                     (deliver (length (pending w)) (position latitude longitude))
                   = Some (position_then (Some (lat, lng)) latitude longitude
                             (set_pending (pending w)
                                (log (issued r) (set_map_popup None w))))).
      { apply (deliver_last_request r (position latitude longitude)
                 (set_map_popup None w)). }
      eexists. split; [cbn [run]; rewrite Hclick, H2, H3; reflexivity|].
      set (x := set_pending _ _).
      assert (Hx : userLocationMarker x = None) by done.
      rewrite position_then_eq, showRoute_pending, place_user_pending,
        showRoute_userLocationMarker.
      unfold getLatLng. rewrite showRoute_heap.
      unfold place_user. rewrite Hx. cbn.
      change (heap w) with (heap x).
      by rewrite add_layer_lookup_new.
    + eexists. split; [done|]. split; [done|]. apply alerts_app.
Qed.

Lemma route_button_asks_route_from_user_to_property_witness :
  ∃ w w',
    run (page_loaded example_inputs true)
        [deliver 0 (properties_json [example_property]); click_marker 0] = Some w
    ∧ run w [click_route_btn; close_popup;
             deliver 0 (position (Qc_of_Z 1) (Qc_of_Z 2))] = Some w'
    ∧ pending w'
      = [GET_route (Qc_of_Z 1) (Qc_of_Z 2)
           (Property.lat example_property) (Property.lng example_property)].
Proof.
  destruct (run (page_loaded example_inputs true)
              [deliver 0 (properties_json [example_property]); click_marker 0])
    as [w|] eqn:Hrun; [|vm_compute in Hrun; discriminate Hrun].
  pose proof Hrun as Hw. vm_compute in Hw. injection Hw as Hw.
  assert (Hpopup : map_popup w
                   = Some (coordinates example_property, popupContent example_property))
    by (rewrite <- Hw; vm_compute; reflexivity).
  assert (Huser : userLocationMarker w = None) by (by rewrite <- Hw).
  assert (Hgeo : navigator_geolocation w = true) by (by rewrite <- Hw).
  assert (Hpending : pending w = []) by (by rewrite <- Hw).
  clear Hw.
  pose proof (route_button_asks_route_from_user_to_property w _ _ _ _ _ _ _ _ _
                (Qc_of_Z 1) (Qc_of_Z 2) Hpopup) as H.
  rewrite Huser, Hgeo, Hpending in H. destruct H as (w' & Hrun' & Hp & _).
  exists w, w'. split; [reflexivity|]. split; [exact Hrun'|exact Hp].
Defined.

(** ** Searching for a location *)

Lemma openPopup_new_marker
    (latlng : LatLng) (icon : option DivIcon) (content : Content) (w : World) :
  openPopup (length (heap w)) (add_layer (L_marker latlng icon (Some content)) w)
  = set_map_popup (Some (latlng, content))
      (add_layer (L_marker latlng icon (Some content)) w).
Proof.
  unfold openPopup. rewrite add_layer_lookup_new. unfold hasLayer.
  rewrite bool_decide_eq_true_2; [done|]. apply elem_of_add_layer. by right.
Qed.

(** X9.  The location search sends nothing when its field is empty.
    Otherwise it sends one geocode request for the text of the field; a
    reply that succeeds centres the map on the coordinates received at zoom
    14, makes one marker there with the address received bound as its popup
    and opens that popup, and lets the markers of the properties be; a reply
    that does not succeed leaves the view and the open popup as they are. *)
Theorem location_search_centres_and_opens_address (w : World) (data : Geocode.t) :
  let query := locationSearch (inputs w) in
  let latlng := (Geocode.lat data, Geocode.lng data) in
  if truthy query then
    ∃ w', run w [click_locationSearchBtn;
                 deliver (length (pending w)) (geocode_json data)] = Some w'
          ∧ fetches (trace w') = fetches (trace w) ++ [GET_geocode query]
          ∧ pending w' = pending w
          ∧ propertyMarkers w' = propertyMarkers w
          ∧ if Geocode.success data then
              map_view w' = setView latlng 14
              ∧ heap w' = heap w ++ [geocode_marker data]
              ∧ length (heap w) ∈ map_layers w'
              ∧ map_popup w'
                = Some (latlng, text_content (Geocode.formatted_address data))
            else
              same_content w w' ∧ map_view w' = map_view w ∧ map_popup w' = map_popup w
  else step w click_locationSearchBtn = Some w.
Proof.
  intros query latlng.
  assert (Hclick : step w click_locationSearchBtn = Some (searchLocation None w)) by done.
  unfold searchLocation in Hclick. fold query in Hclick.
  destruct (truthy query); [|done].
  set (r := GET_geocode query) in *.
  pose proof (deliver_last_request r (geocode_json data) w) as H2. cbn [settle r] in H2.
  eexists. split; [cbn [run]; rewrite Hclick, H2; reflexivity|].
  set (x := set_pending _ _).
  assert (Hfetch : fetches (trace x) = fetches (trace w) ++ [GET_geocode query]).
  { unfold x. cbn. apply fetches_app. }
  destruct (Geocode.success data) eqn:Hok.
  - rewrite geocode_then_success by done. fold latlng.
    set (y := set_map_view _ x).
    change (length (heap x)) with (length (heap y)).
    rewrite openPopup_new_marker.
    cbn [trace pending propertyMarkers map_view heap map_layers map_popup set_map_popup].
    fold latlng. fold (geocode_marker data).
    split_and!; try done.
    + unfold add_layer, addTo. cbn -[hasLayer]. destruct (hasLayer _ _).
      * cbn. fold_fetches. rewrite fetches_app. cbn. rewrite app_nil_r. exact Hfetch.
      * cbn. fold_fetches. rewrite fetches_app. cbn. rewrite app_nil_r. exact Hfetch.
    + by rewrite add_layer_pending.
    + by rewrite add_layer_propertyMarkers.
    + unfold add_layer, addTo. cbn -[hasLayer]. by destruct (hasLayer _ _).
    + by rewrite add_layer_heap.
    + apply elem_of_add_layer. by right.
  - destruct (geocode_then_failure data x Hok) as [message ->].
    split_and!; try done.
    cbn. fold_fetches. rewrite fetches_app. cbn. rewrite app_nil_r. exact Hfetch.
Qed.

(** ** A browser without geolocation *)

Lemma never_located_same (w w' : World) :
  navigator_geolocation w' = navigator_geolocation w →
  userLocationMarker w' = userLocationMarker w →
  currentRouteLayer w' = currentRouteLayer w →
  pending w' = pending w → trace w' = trace w → heap w' = heap w →
  never_located w → never_located w'.
Proof. unfold never_located. by intros -> -> -> -> -> ->. Qed.

Lemma never_located_log (e : Effect) (w : World) :
  quiet_effect e = true → never_located w → never_located (log e w).
Proof.
  intros He (Hg & Hu & Hr & Hp & Ht & Hh). split_and!; try done.
  cbn. apply Forall_app. split; [done|]. by apply Forall_singleton.
Qed.

Lemma never_located_request (r : Request) (w : World) :
  asks_position_or_route r = false → never_located w → never_located (request r w).
Proof.
  intros Hq (Hg & Hu & Hr & Hp & Ht & Hh). split_and!; try done.
  - cbn. apply Forall_app. split; [done|]. by apply Forall_singleton.
  - cbn. apply Forall_app. split; [done|]. apply Forall_singleton. cbn. by rewrite Hq.
Qed.

Lemma never_located_drop (n : nat) (w : World) :
  never_located w → never_located (set_pending (delete n (pending w)) w).
Proof.
  intros (Hg & Hu & Hr & Hp & Ht & Hh). split_and!; try done.
  cbn. by apply Forall_delete.
Qed.

Lemma never_located_displayProperties (properties : list Property.t) (w : World) :
  never_located w → never_located (displayProperties properties w).
Proof.
  intros (Hg & Hu & Hr & Hp & Ht & Hh). rewrite displayProperties_eq.
  split_and!; try done; cbn.
  - rewrite !Forall_app. split_and!; [done| |].
    + by apply Forall_fmap, Forall_true.
    + by apply Forall_fmap, Forall_true.
  - apply Forall_app. split; [done|]. by apply Forall_fmap, Forall_true.
Qed.

Lemma never_located_add_layer (l : Layer) (w : World) :
  is_polyline l = false → never_located w → never_located (add_layer l w).
Proof.
  intros Hl (Hg & Hu & Hr & Hp & Ht & Hh).
  unfold never_located, add_layer, addTo. cbn -[hasLayer].
  destruct (hasLayer _ _); cbn; split_and!; try done.
  all: apply Forall_app; split; [done|]; by apply Forall_singleton.
Qed.

Lemma never_located_openPopup (stamp : nat) (w : World) :
  never_located w → never_located (openPopup stamp w).
Proof.
  rewrite openPopup_bound. destruct (bound_popup w stamp); [|done].
  by apply never_located_same.
Qed.

Lemma card_click_form (c : Card) (w : World) :
  ∃ p, card_click c w = set_map_popup p (set_map_view (setView (card_latlng c) 16) w).
Proof.
  unfold card_click. set (v := set_map_view _ w). eexists.
  rewrite <- (set_map_popup_same v) at 1.
  by rewrite (card_click_loop (card_latlng c) (propertyMarkers v) v (map_popup v)).
Qed.

Lemma never_located_searchLocation (locationQuery : option string) (w : World) :
  never_located w → never_located (searchLocation locationQuery w).
Proof.
  intros Hw. unfold searchLocation. destruct (truthy _); [|done].
  by apply never_located_request.
Qed.

Lemma never_located_getUserLocation (callback : option LatLng) (w : World) :
  never_located w →
  getUserLocation callback w
  = log (alert "Geolocation is not supported by your browser.") w
  ∧ never_located (getUserLocation callback w).
Proof.
  intros Hw. unfold getUserLocation. rewrite (proj1 Hw).
  split; [done|]. by apply never_located_log.
Qed.

Lemma step_never_located (w w' : World) (e : Event) :
  step w e = Some w' → never_located w → never_located w'.
Proof.
  intros Hstep Hw. destruct e; cbn in Hstep.
  - injection Hstep as <-. revert Hw. by apply never_located_same.
  - injection Hstep as <-. by apply never_located_getUserLocation.
  - injection Hstep as <-. change (never_located (calculatePriceEstimate w)).
    unfold calculatePriceEstimate. destruct (_ || _).
    + by apply never_located_log.
    + by apply never_located_request.
  - injection Hstep as <-. change (never_located (searchProperties w)).
    destruct (searchProperties_request w) as [body ->].
    by apply never_located_request.
  - injection Hstep as <-. by apply (never_located_searchLocation None).
  - destruct (heap w !! stamp) as [[latlng icon [content|]|]|]; try discriminate.
    destruct (hasLayer stamp w); [|discriminate]. injection Hstep as <-.
    by apply never_located_openPopup.
  - destruct (propertyList w !! n) as [c|]; [|discriminate]. injection Hstep as <-.
    change (never_located (card_click c w)).
    destruct (card_click_form c w) as [p ->]. revert Hw. by apply never_located_same.
  - destruct (map_popup w) as [[latlng [image price beds baths area address lat lng| |]]|];
      try discriminate.
    injection Hstep as <-. unfold route_btn_click.
    rewrite (proj1 (proj2 Hw)). by apply never_located_getUserLocation.
  - injection Hstep as <-. revert Hw. by apply never_located_same.
  - destruct (pending w !! n) as [r|] eqn:Hn; [|discriminate].
    assert (Hr : asks_position_or_route r = false).
    { destruct Hw as (_ & _ & _ & Hp & _). by apply (Forall_lookup_1 _ _ _ _ Hp Hn). }
    apply (never_located_drop n) in Hw. revert Hstep Hw.
    generalize (set_pending (delete n (pending w)) w). intros x Hstep Hx.
    destruct r as [|body submitted|query|a b c d|body|callback], reply;
      try discriminate; cbn in Hstep; injection Hstep as <-.
    + by apply never_located_log.
    + by apply never_located_displayProperties.
    + by apply never_located_log.
    + change (never_located (search_then submitted properties x)).
      unfold search_then. destruct (truthy submitted).
      * by apply never_located_searchLocation, never_located_displayProperties.
      * by apply never_located_displayProperties.
    + by apply never_located_log.
    + change (never_located (geocode_then data x)).
      destruct (Geocode.success data) eqn:Hok.
      * rewrite geocode_then_success by done.
        apply never_located_openPopup, never_located_add_layer; [done|].
        revert Hx. by apply never_located_same.
      * destruct (geocode_then_failure data x Hok) as [message ->].
        by apply never_located_log.
    + unfold estimate_catch. apply never_located_log; [done|].
      by apply never_located_log.
    + revert Hx. by apply never_located_same.
Qed.

Lemma run_never_located (es : list Event) (w w' : World) :
  run w es = Some w' → never_located w → never_located w'.
Proof.
  revert w. induction es as [|e es IH]; intros w Hrun Hw; cbn in Hrun.
  - by injection Hrun as <-.
  - destruct (step w e) as [w1|] eqn:Hstep; [|discriminate].
    eapply IH; [done|]. by eapply step_never_located.
Qed.

Lemma never_located_page_loaded (i : Inputs) : never_located (page_loaded i false).
Proof.
  unfold page_loaded, loadProperties. apply never_located_request; [done|].
  unfold never_located, initMap. cbn. split_and!; try done; by repeat constructor.
Qed.

(** X10.  In a browser without geolocation the page, whatever happens on
    it, never asks for a position or for a route, never has a marker of the
    user, never draws a route, and answers a click on the location button
    and on the route button of a popup with the same alert and nothing
    else. *)
Theorem without_geolocation_no_position_and_no_route
    (i : Inputs) (es : list Event) (w : World) :
  run (page_loaded i false) es = Some w →
  userLocationMarker w = None
  ∧ currentRouteLayer w = None
  ∧ routes_on_map w = []
  ∧ (∀ r, issued r ∈ trace w → asks_position_or_route r = false)
  ∧ (∀ r, r ∈ pending w → asks_position_or_route r = false)
  ∧ step w click_currentLocation
    = Some (log (alert "Geolocation is not supported by your browser.") w)
  ∧ (∀ w', step w click_route_btn = Some w' →
           w' = log (alert "Geolocation is not supported by your browser.") w).
Proof.
  intros Hrun.
  pose proof (run_never_located es _ w Hrun (never_located_page_loaded i)) as Hw.
  pose proof Hw as (Hg & Hu & Hr & Hp & Ht & Hh).
  split_and!; try done.
  - apply filter_none. intros s _. unfold layer_is_route.
    destruct (heap w !! s) as [l|] eqn:Hs; [|done].
    by rewrite (Forall_lookup_1 _ _ _ _ Hh Hs).
  - intros r Hin. pose proof (proj1 (Forall_forall _ _) Ht _ Hin) as Hq.
    cbn in Hq. by destruct (asks_position_or_route r).
  - intros r Hin. by apply (proj1 (Forall_forall _ _) Hp).
  - cbn. f_equal. by apply never_located_getUserLocation.
  - intros w' Hstep. cbn in Hstep.
    destruct (map_popup w) as [[latlng [image price beds baths area address lat lng| |]]|];
      try discriminate.
    injection Hstep as <-. unfold route_btn_click. rewrite Hu.
    by apply never_located_getUserLocation.
Qed.

Lemma without_geolocation_no_position_and_no_route_witness :
  ∃ w,
    run (page_loaded example_inputs false)
        [deliver 0 (properties_json [example_property]); click_marker 0;
         click_route_btn; click_currentLocation] = Some w
    ∧ routes_on_map w = [] ∧ userLocationMarker w = None.
Proof.
  destruct (run (page_loaded example_inputs false)
              [deliver 0 (properties_json [example_property]); click_marker 0;
               click_route_btn; click_currentLocation])
    as [w|] eqn:Hrun; [|vm_compute in Hrun; discriminate Hrun].
  exists w. split; [reflexivity|].
  destruct (without_geolocation_no_position_and_no_route example_inputs _ w Hrun)
    as (Hu & _ & Hroutes & _).
  split; [exact Hroutes | exact Hu].
Defined.

(** ** The list of results *)



